(** * Calculate: logic-program generation, solver invocation and result
      parsing of the card calculation engine.

    A shallow embedding of class [Calculate] (TypeScript).

    - Strings are Stdlib [string]s, sequences of 8-bit characters: the code
      only ever inspects ASCII characters, every other character falls
      outside all the character classes and separators it uses.
    - The file system is a finite map from paths to file contents together
      with a set of folders; the static member [Calculate.project] is an
      explicit component of the state.  Paths use the POSIX separator, and
      [path.join] is taken on normalised arguments (a folder without a
      trailing separator, a name without separators or dots to resolve),
      where it is the concatenation with the separator.
    - File-system calls succeed, except for reading a path that names no
      file.  For a write this is the case where the folder written to
      exists: [generate] makes the folders before it writes, and
      [handleDeleteCard] writes only to a file it has found; the statements
      about what [handleNewCards] writes assume the folder of the per-card
      units.
    - The project container and the solver process are collaborators of
      the class; they are parameters of every operation.
    - Promises that are started together and joined with [Promise.all] are
      taken in the order they are started.  Writes that are started together
      and go to one path are ordered by this choice and by nothing in the
      code: the statements about the contents of the units assume that the
      cards in question have distinct keys, or that cards of one key carry
      the same facts. *)

From Stdlib Require Import ZArith Ascii String List Lia Bool.
From stdpp Require Import base option gmap strings list.

Local Open Scope string_scope.
Local Open Scope Z_scope.

#[local] Arguments String.append !s1 s2 : simpl nomatch.

(** ** Characters and string constants *)

Definition DQ : string := String "034"%char EmptyString.
Definition NL : string := String "010"%char EmptyString.
Definition newline : ascii := "010"%char.
Definition sep : ascii := "/"%char.

(** ** The JavaScript string primitives the class uses *)

Module JS.

(** [s.startsWith(p)], returning what follows the prefix. *)
Fixpoint stripPrefix (p s : string) : option string :=
  match p with
  | EmptyString => Some s
  | String a p' =>
      match s with
      | EmptyString => None
      | String b s' => if Ascii.eqb a b then stripPrefix p' s' else None
      end
  end.

(** [s.indexOf(needle)]: position of the first occurrence, [-1] if none. *)
Fixpoint indexOf (needle s : string) : Z :=
  match stripPrefix needle s with
  | Some _ => 0
  | None =>
      match s with
      | EmptyString => -1
      | String _ s' =>
          let i := indexOf needle s' in
          if i <? 0 then -1 else i + 1
      end
  end.

(** [s.substring(a, b)]: both indices are clamped to [0 .. length], and
    swapped when [a > b]. *)
Definition clamp (len i : Z) : Z := Z.max 0 (Z.min i len).

Definition substring (s : string) (a b : Z) : string :=
  let len := Z.of_nat (String.length s) in
  let a' := clamp len a in
  let b' := clamp len b in
  let lo := Z.min a' b' in
  let hi := Z.max a' b' in
  String.substring (Z.to_nat lo) (Z.to_nat (hi - lo)) s.

(** [s.split(c)] for a one-character separator: never empty, the empty
    string splits into one empty piece. *)
Fixpoint split (c : ascii) (s : string) : list string :=
  match s with
  | EmptyString => [EmptyString]
  | String a s' =>
      if Ascii.eqb a c then EmptyString :: split c s'
      else match split c s' with
           | h :: t => String a h :: t
           | [] => [String a EmptyString]
           end
  end.

(** [s.replace(pat, rep)] with a string pattern: only the first occurrence
    is replaced ([rep] is taken literally; the class only passes the empty
    string). *)
Fixpoint replace (pat rep s : string) : string :=
  match stripPrefix pat s with
  | Some rest => rep +:+ rest
  | None =>
      match s with
      | EmptyString => EmptyString
      | String a s' => String a (replace pat rep s')
      end
  end.

(** [arr.at(i)]: negative indices count from the end, out of range is
    [undefined]. *)
Definition at_ {A} (l : list A) (i : Z) : option A :=
  let k := if i <? 0 then Z.of_nat (List.length l) + i else i in
  if k <? 0 then None else nth_error l (Z.to_nat k).

(** [arr.join(sepr)], as used when an array is interpolated in a template
    literal. *)
Fixpoint join (sepr : string) (l : list string) : string :=
  match l with
  | [] => EmptyString
  | [x] => x
  | x :: r => x +:+ sepr +:+ join sepr r
  end.

(** Characters of a string, as iterated by [for ... of]. *)
Fixpoint chars (s : string) : list string :=
  match s with
  | EmptyString => []
  | String a s' => String a EmptyString :: chars s'
  end.

End JS.

(** ** A backtracking matcher for the regular-expression fragment in use

    Ordered alternation, greedy [+] over a character class, literals and
    numbered capture groups, matched the way a backtracking engine does:
    each construct takes the rest of the pattern as a continuation and
    gives back the first success. *)

Module Regex.

Inductive regex : Type :=
| RLit (l : string)
| RAlt (r1 r2 : regex)
| RSeq (r1 r2 : regex)
| RPlus (cls : ascii -> bool)
| RGroup (n : nat) (r : regex).

Definition captures : Type := nat -> option string.
Definition noCaptures : captures := fun _ => None.
Definition setCap (n : nat) (t : string) (c : captures) : captures :=
  fun m => if Nat.eqb m n then Some t else c m.

(** The text consumed between input [s] and its suffix [s']. *)
Definition consumed (s s' : string) : string :=
  String.substring 0 (String.length s - String.length s') s.

Section Matcher.
Context {A : Type}.

(** [cls*], longest first, giving characters back on failure. *)
Fixpoint starK (cls : ascii -> bool) (s : string)
    (k : string -> option A) : option A :=
  match s with
  | String c s' =>
      if cls c then
        match starK cls s' k with
        | Some r => Some r
        | None => k s
        end
      else k s
  | EmptyString => k s
  end.

Definition plusK (cls : ascii -> bool) (s : string)
    (k : string -> option A) : option A :=
  match s with
  | String c s' => if cls c then starK cls s' k else None
  | EmptyString => None
  end.

End Matcher.

Fixpoint matchK (r : regex) (s : string) (caps : captures)
    (k : string -> captures -> option captures) : option captures :=
  match r with
  | RLit l =>
      match JS.stripPrefix l s with
      | Some s' => k s' caps
      | None => None
      end
  | RAlt r1 r2 =>
      match matchK r1 s caps k with
      | Some x => Some x
      | None => matchK r2 s caps k
      end
  | RSeq r1 r2 => matchK r1 s caps (fun s' caps' => matchK r2 s' caps' k)
  | RPlus cls => plusK cls s (fun s' => k s' caps)
  | RGroup n r1 =>
      matchK r1 s caps (fun s' caps' => k s' (setCap n (consumed s s') caps'))
  end.

(** Match anchored at the start of [s]. *)
Definition matchHere (r : regex) (s : string) : option captures :=
  matchK r s noCaptures (fun _ caps => Some caps).

(** [s.match(r)] for a non-global [r]: the leftmost position where the
    pattern matches. *)
Fixpoint exec (r : regex) (s : string) : option captures :=
  match matchHere r s with
  | Some caps => Some caps
  | None =>
      match s with
      | EmptyString => None
      | String _ s' => exec r s'
      end
  end.

(** [match[n]]; an unset group reads as the empty text. *)
Definition group (m : captures) (n : nat) : string :=
  match m n with Some t => t | None => EmptyString end.

(** Declarative reading of the fragment: [Matches r t c c'] when [r]
    matches exactly the text [t], taking captures [c] to [c']. *)
Inductive Matches : regex -> string -> captures -> captures -> Prop :=
| MLit l c : Matches (RLit l) l c c
| MAltL r1 r2 t c c' : Matches r1 t c c' -> Matches (RAlt r1 r2) t c c'
| MAltR r1 r2 t c c' : Matches r2 t c c' -> Matches (RAlt r1 r2) t c c'
| MSeq r1 r2 t1 t2 c c1 c2 :
    Matches r1 t1 c c1 -> Matches r2 t2 c1 c2 ->
    Matches (RSeq r1 r2) (t1 +:+ t2) c c2
| MPlus cls t c :
    t <> EmptyString -> forallb cls (list_ascii_of_string t) = true ->
    Matches (RPlus cls) t c c
| MGroup n r t c c' :
    Matches r t c c' -> Matches (RGroup n r) t c (setCap n t c').

End Regex.

(** ** Result parsing *)

(** [a-zA-Z0-9_] *)
Definition isWordChar (c : ascii) : bool :=
  let n := N_of_ascii c in
  ((97 <=? n) && (n <=? 122) || (65 <=? n) && (n <=? 90)
   || (48 <=? n) && (n <=? 57) || (n =? 95))%N.

(** The class of the value group: word characters, the double quote
    and the space. *)
Definition isValueChar (c : ascii) : bool :=
  let n := N_of_ascii c in
  (isWordChar c || (n =? 34) || (n =? 32))%N.

(** Parsed Clingo result. *)
Record ParseResult : Type := mkParseResult {
  cardKey : string;
  field : string;
  value : string
}.

Import Regex.

(** The pattern of [parseInput]: group 1 is [field] or [fieldtype], then an
    opening parenthesis, group 2 [[a-zA-Z0-9_]+], a comma and a double
    quote, group 3 [[a-zA-Z0-9_]+], a double quote and a comma, and group 4,
    one or more characters of the value class. *)
Definition fieldRegex : regex :=
  RSeq (RGroup 1 (RAlt (RLit "field") (RLit "fieldtype")))
  (RSeq (RLit "(")
  (RSeq (RGroup 2 (RPlus isWordChar))
  (RSeq (RLit ("," +:+ DQ))
  (RSeq (RGroup 3 (RPlus isWordChar))
  (RSeq (RLit (DQ +:+ ","))
        (RGroup 4 (RPlus isValueChar))))))).

(** What one line ([datum]) of the solver output adds to the results. *)
Definition parseLine (datum : string) : list ParseResult :=
  match datum with
  | EmptyString => []
  | _ =>
      match exec fieldRegex datum with
      | Some m => [mkParseResult (group m 2) (group m 3) (group m 4)]
      | None => []
      end
  end.

(** Parses Clingo's result to an array of objects (key, field, value). *)
Definition parseInput (input : string) : list ParseResult :=
  flat_map parseLine (JS.split newline input).

(** Checks that Clingo successfully returned result; [None] is the
    [undefined] the method returns when there is nothing before the
    marker. *)
Definition parseClingoResult (data : string) : option (list ParseResult) :=
  let actual_result := JS.substring data 0 (JS.indexOf "SATISFIABLE" data) in
  if (String.length actual_result =? 0)%nat then None
  else Some (parseInput actual_result).

(** ** Cards, the project container and the other collaborators *)

(** A metadata value: a scalar, carried as the text a template literal
    renders it to, or a list of strings. *)
Inductive metadataValue : Type :=
| Str (s : string)
| Arr (items : list string).

#[warning="-register-all"]
Inductive card : Type := mkCard {
  key : string;
  path : string;
  metadata : option (list (string * metadataValue));
  children : option (list card)
}.

(** The second argument of [findSpecificCard]. *)
Record fetchCardDetails : Type := mkDetails {
  wantMetadata : bool;
  wantChildren : bool;
  wantContent : bool;
  wantParent : bool
}.

(** An entry of [project.calculations()]. *)
Record calculationFile : Type := mkCalculationFile {
  calcName : string;
  calcPath : option string
}.

(** What the class reads off a [Project] object itself. *)
Record Project : Type := mkProject {
  basePath : string;
  calculationFolder : string
}.

(** What [spawnSync] gives back; every member is [null] when the binary
    could not be started. *)
Record SpawnResult : Type := mkSpawnResult {
  stdout : option string;
  stderr : option string;
  status : option Z
}.

(** The collaborators of the class, whose code is not part of it: the
    project container ([new Project], [cards], [findSpecificCard],
    [calculations], the static [flattenCardArray] and [findProjectRoot]),
    answering for the card data currently on disk, and the solver process
    behind [spawnSync]. *)
Record Collaborators : Type := mkCollaborators {
  newProject : string -> Project;
  projectCards : Project -> list card;
  findSpecificCard : Project -> string -> option fetchCardDetails -> option card;
  projectCalculations : Project -> list calculationFile;
  flattenCardArray : list card -> list card;
  findProjectRoot : string -> option string;
  spawnSync : string -> list string -> string -> SpawnResult
}.

(** ** The file system *)

Record FS : Type := mkFS {
  files : gmap string string;
  dirs : gset string
}.

(** [path.join(a, b)] on a normalised folder [a] and a plain name [b]:
    the two joined by the separator. *)
Definition joinPath (a b : string) : string := a +:+ "/" +:+ b.

(** [path.basename(p)]: the last piece of [p], trailing separators
    ignored. *)
Fixpoint lastNonEmpty (l : list string) : string :=
  match l with
  | [] => EmptyString
  | x :: r =>
      match lastNonEmpty r with
      | EmptyString => x
      | y => y
      end
  end.

Definition basename (p : string) : string := lastNonEmpty (JS.split sep p).

(** Modelled from the spec: [pathExists] of [utils/file-utils.js], whose
    code is not embedded here; a path exists when it names a file or a
    folder. *)
Definition pathExists (p : string) (fs : FS) : bool :=
  bool_decide (is_Some (files fs !! p)) || bool_decide (p ∈ dirs fs).

(** [fs.writeFile] with flag [w], into a folder that exists: the file is
    created or replaced. *)
Definition writeFile (p content : string) (fs : FS) : FS :=
  mkFS (<[p := content]> (files fs)) (dirs fs).

(** Modelled from the spec: [deleteFile] of [utils/file-utils.js], whose
    code is not embedded here; the file is removed. *)
Definition deleteFile (p : string) (fs : FS) : FS :=
  mkFS (delete p (files fs)) (dirs fs).

(** [fs.readFile]: the contents of a file, [None] when the call is
    rejected because the path names no file. *)
Definition readFile (p : string) (fs : FS) : option string := files fs !! p.

(** The folders [mkdir(p, { recursive: true })] makes sure exist: [p] and
    every prefix of [p] that ends before a separator. *)
Fixpoint foldersOf (done todo : string) : list string :=
  match todo with
  | EmptyString => [done]
  | String c rest =>
      (if Ascii.eqb c sep
       then match done with EmptyString => [] | _ => [done] end
       else [])
      ++ foldersOf (done +:+ String c EmptyString) rest
  end.

Definition mkdirRecursive (p : string) (fs : FS) : FS :=
  mkFS (files fs) (dirs fs ∪ list_to_set (foldersOf EmptyString p)).

(** ** State and results *)

Record State : Type := mkState {
  project : option Project;   (* the static member [Calculate.project] *)
  fs : FS
}.

Record requestStatus : Type := mkStatus {
  statusCode : Z;
  message : option string;
  payload : option (list ParseResult)
}.

Inductive fault : Type :=
| NotInProject (msg : string)   (* thrown by [setCalculateProject] *)
| TypeError                     (* a member read off [undefined] *)
| IOError.                      (* a rejected file-system call *)

Inductive outcome (A : Type) : Type :=
| Returned (a : A)
| Thrown (f : fault).
Arguments Returned {A} a.
Arguments Thrown {A} f.

(** JavaScript truthiness of a string. *)
Definition truthy (s : string) : bool :=
  match s with EmptyString => false | _ => true end.

(** ** Constants of the class *)

Definition logicBinaryName : string := "clingo".
Definition baseLogicFileName : string := "base.lp".
Definition cardTreeFileName : string := "cardtree.lp".
Definition modulesFileName : string := "modules.lp".
Definition mainLogicFileName : string := "main.lp".

(** A template literal, line by line: every line is followed by a line
    feed. *)
Definition textOf (ls : list string) : string :=
  String.concat EmptyString (map (fun l => l +:+ NL) ls).

Definition commonDefinitions : string :=
  textOf [
    EmptyString;
    "%";
    "% Common definitions for all Cards projects";
    "%";
    EmptyString;
    "% parent and ancestor";
    "ancestor(A, C) :- parent(A, C), card(A), card(B).";
    "ancestor(A, C) :- parent(A, B), ancestor (B, C), card(A), card(B), card(C).";
    EmptyString;
    "% if the cardtype is given, then it's a card";
    "card(C) :- field(C, " +:+ DQ +:+ "cardtype" +:+ DQ +:+ ", _).";
    EmptyString;
    "% the default fields are not calculated, so let's mark them as user fields.";
    "userfield(Cardkey, " +:+ DQ +:+ "cardtype" +:+ DQ
      +:+ ") :- field(Cardkey, " +:+ DQ +:+ "cardtype" +:+ DQ +:+ ", Cardtype).";
    "userfield(Cardkey, " +:+ DQ +:+ "summary" +:+ DQ
      +:+ ") :- field(Cardkey, " +:+ DQ +:+ "cardtype" +:+ DQ +:+ ", Cardtype).";
    "userfield(Cardkey, " +:+ DQ +:+ "workflowState" +:+ DQ
      +:+ ") :- field(Cardkey, " +:+ DQ +:+ "cardtype" +:+ DQ +:+ ", Cardtype).";
    EmptyString;
    "% if all values of a field are cardkeys, then the field is of type "
      +:+ DQ +:+ "cardkeys" +:+ DQ;
    "fieldtype(X, Field, " +:+ DQ +:+ "cardkeys" +:+ DQ
      +:+ ") :- field(X, Field, _), card(Value) : field(X, Field, Value).";
    EmptyString
  ].

Definition mainLogicFile : string :=
  textOf [
    EmptyString;
    "#include " +:+ DQ +:+ "base.lp" +:+ DQ +:+ ".";
    "#include " +:+ DQ +:+ "cardtree.lp" +:+ DQ +:+ ".";
    "#include " +:+ DQ +:+ "modules.lp" +:+ DQ +:+ "."
  ].

(** ** The class *)

Section Calculate.

Context (W : Collaborators).

(** Paths below the calculation folder. *)
Definition baseFile (prj : Project) : string :=
  joinPath (calculationFolder prj) baseLogicFileName.
Definition cardTreeFile (prj : Project) : string :=
  joinPath (calculationFolder prj) cardTreeFileName.
Definition modulesFile (prj : Project) : string :=
  joinPath (calculationFolder prj) modulesFileName.
Definition mainFile (prj : Project) : string :=
  joinPath (calculationFolder prj) mainLogicFileName.
Definition cardsFolder (prj : Project) : string :=
  joinPath (calculationFolder prj) "cards".
Definition cardLogicFile (prj : Project) (k : string) : string :=
  joinPath (cardsFolder prj) k +:+ ".lp".

(** Write the base.lp that contains common definitions. *)
Definition generateBase (prj : Project) (parentCard : option card)
    (s : FS) : FS :=
  match parentCard with
  | Some _ => s
  | None => writeFile (baseFile prj) commonDefinitions s
  end.

(** Small helper to deduce parent path: [None] is [undefined]. *)
Definition parentPath (cardPath : string) : option string :=
  let pathParts := JS.split sep cardPath in
  let len := Z.of_nat (List.length pathParts) in
  if bool_decide (JS.at_ pathParts (len - 2) = Some "cardroot")
  then Some EmptyString
  else JS.at_ pathParts (len - 3).

(** The text a template literal gives for a metadata value. *)
Definition render (v : metadataValue) : string :=
  match v with
  | Str s => s
  | Arr items => JS.join "," items
  end.

(** The elements [for ... of] visits in a metadata value. *)
Definition labelsOf (v : metadataValue) : list string :=
  match v with
  | Str s => JS.chars s
  | Arr items => items
  end.

Definition labelFact (k label : string) : string :=
  "label(" +:+ k +:+ ", " +:+ DQ +:+ label +:+ DQ +:+ ")." +:+ NL.

Definition fieldFact (k fld : string) (v : metadataValue) : string :=
  "field(" +:+ k +:+ ", " +:+ DQ +:+ fld +:+ DQ +:+ ", "
    +:+ DQ +:+ render v +:+ DQ +:+ ")." +:+ NL.

Definition parentFact (k parentsPath : string) : string :=
  "parent(" +:+ k +:+ ", " +:+ parentsPath +:+ ")." +:+ NL.

(** The facts of one metadata entry. *)
Definition entryFacts (k : string) (e : string * metadataValue) : string :=
  let (fld, v) := e in
  if String.eqb fld "labels"
  then String.concat EmptyString (map (labelFact k) (labelsOf v))
  else fieldFact k fld v.

Definition metadataFacts (c : card) : string :=
  match metadata c with
  | Some entries => String.concat EmptyString (map (entryFacts (key c)) entries)
  | None => EmptyString
  end.

(** The parent fact of a card, empty when none is written. *)
Definition parentFacts (c : card) : string :=
  match parentPath (path c) with
  | Some parentsPath =>
      if truthy parentsPath then parentFact (key c) parentsPath else EmptyString
  | None => EmptyString
  end.

(** The card-specific logic program ([logicProgram] in the loop of
    [generateCardTree]). *)
Definition logicProgram (c : card) : string :=
  (NL +:+ "% " +:+ key c +:+ NL) +:+ metadataFacts c +:+ parentFacts c.

Definition includeRow (k : string) : string :=
  "#include " +:+ DQ +:+ "cards/" +:+ k +:+ ".lp" +:+ DQ +:+ "." +:+ NL.

Definition cardTreeContent (allCards : list card) : string :=
  String.concat EmptyString (map (fun c => includeRow (key c)) allCards).

Definition detailsForSubtree : fetchCardDetails := mkDetails true true false false.

Definition withoutChildren (c : card) : card :=
  mkCard (key c) (path c) (metadata c) None.

(** Gets either all the cards (no parent), or a subtree. *)
Definition getCards (prj : Project) (parentCard : option card) : list card :=
  match parentCard with
  | Some parent =>
      match findSpecificCard W prj (key parent) (Some detailsForSubtree) with
      | Some c =>
          withoutChildren c ::
          match children c with
          | Some cs => flattenCardArray W cs
          | None => []
          end
      | None => []
      end
  | None => projectCards W prj
  end.

Definition writeCardFile (prj : Project) (s : FS) (c : card) : FS :=
  writeFile (cardLogicFile prj (key c)) (logicProgram c) s.

(** Write the cardtree.lp that contain data from the selected card-tree.
    The writes are issued together and joined; they are taken here in the
    order they are issued, which decides the bytes of a unit only when two
    cards in scope have one key. *)
Definition generateCardTree (prj : Project) (parentCard : option card)
    (s : FS) : FS :=
  let cards := getCards prj parentCard in
  let s1 := foldl (writeCardFile prj) s cards in
  let allCards :=
    match parentCard with
    | Some _ => projectCards W prj
    | None => cards
    end in
  writeFile (cardTreeFile prj) (cardTreeContent allCards) s1.

(** Write the main.lp that includes all other logic programs. *)
Definition generateMainLogicFile (prj : Project) (parentCard : option card)
    (s : FS) : FS :=
  match parentCard with
  | Some _ => s
  | None => writeFile (mainFile prj) mainLogicFile s
  end.

(** The include row of one calculation file; a file without a path gives
    no row.  The folder and the base name are joined as [joinPath] joins
    them: the folder is taken as the project reports it, normalised. *)
Definition moduleRow (f : calculationFile) : string :=
  match calcPath f with
  | Some p =>
      if truthy p
      then "#include " +:+ DQ +:+ joinPath p (basename (calcName f))
             +:+ DQ +:+ "." +:+ NL
      else EmptyString
  | None => EmptyString
  end.

(** Collects all logic calculation files from project (local and imported
    modules). *)
Definition generateModules (prj : Project) (parentCard : option card)
    (s : FS) : FS :=
  match parentCard with
  | Some _ => s
  | None =>
      writeFile (modulesFile prj)
        (String.concat EmptyString (map moduleRow (projectCalculations W prj))) s
  end.

(** Creates a project, if it is not already created. *)
Definition setCalculateProject (c : option card) (st : State)
    : outcome unit * State :=
  match project st with
  | Some _ => (Returned tt, st)
  | None =>
      match c with
      | None => (Thrown TypeError, st)
      | Some c =>
          match findProjectRoot W (path c) with
          | Some root =>
              if truthy root
              then (Returned tt, mkState (Some (newProject W root)) (fs st))
              else (Thrown (NotInProject
                      ("Card '" +:+ key c +:+ "' not in project structure")), st)
          | None =>
              (Thrown (NotInProject
                 ("Card '" +:+ key c +:+ "' not in project structure")), st)
          end
      end
  end.

Definition notFound (cardKey : string) : requestStatus :=
  mkStatus 400 (Some ("Card '" +:+ cardKey +:+ "' not found")) None.

Definition ok200 : requestStatus := mkStatus 200 None None.

(** The card a key selects in [generate]: [Some None] when no key is given,
    [None] when the key names no card (the early 400 return). *)
Definition scopeOf (prj : Project) (cardKey : option string)
    : option (option card) :=
  match cardKey with
  | Some k =>
      if truthy k then
        match findSpecificCard W prj k None with
        | Some c => Some (Some c)
        | None => None
        end
      else Some None
  | None => Some None
  end.

(** Generates a logic program. *)
Definition generate (projectPath : string) (cardKey : option string)
    (st : State) : requestStatus * State :=
  let prj := newProject W projectPath in
  match scopeOf prj cardKey with
  | None =>
      (notFound (default EmptyString cardKey), mkState (Some prj) (fs st))
  | Some c =>
      let s0 := mkdirRecursive (cardsFolder prj) (fs st) in
      let s1 := generateBase prj c s0 in
      let s2 := generateCardTree prj c s1 in
      let s3 := generateModules prj c s2 in
      let s4 := generateMainLogicFile prj c s3 in
      (ok200, mkState (Some prj) s4)
  end.

(** When card changes, update the card specific calculations. *)
Definition handleCardChanged (changedCard : card) (st : State)
    : outcome requestStatus * State :=
  match setCalculateProject (Some changedCard) st with
  | (Thrown f, st') => (Thrown f, st')
  | (Returned _, st') =>
      match project st' with
      | Some prj =>
          let (_, st'') := generate (basePath prj) (Some (key changedCard)) st' in
          (Returned ok200, st'')
      | None => (Thrown TypeError, st')
      end
  end.

(** One round of the loop of [handleDeleteCard]: the state is the file
    system and the text of cardtree.lp being edited. *)
Definition deleteRound (prj : Project) (acc : FS * string) (c : card)
    : FS * string :=
  let (s, content) := acc in
  let cardCalculationsFile := cardLogicFile prj (key c) in
  let s' := if pathExists cardCalculationsFile s
            then deleteFile cardCalculationsFile s else s in
  (s', JS.replace (includeRow (key c)) EmptyString content).

Definition calculationsForTreeExist (prj : Project) (s : FS) : bool :=
  pathExists (cardTreeFile prj) s && pathExists (calculationFolder prj) s.

(** When cards are removed, automatically remove card-specific
    calculations. *)
Definition handleDeleteCard (deletedCard : option card) (st : State)
    : outcome unit * State :=
  match deletedCard with
  | None => (Returned tt, st)
  | Some deleted =>
      match setCalculateProject (Some deleted) st with
      | (Thrown f, st') => (Thrown f, st')
      | (Returned _, st') =>
          match project st' with
          | None => (Thrown TypeError, st')
          | Some prj =>
              let affectedCards := getCards prj (Some deleted) in
              let exist := calculationsForTreeExist prj (fs st') in
              let content0 :=
                if exist then readFile (cardTreeFile prj) (fs st')
                else Some EmptyString in
              match content0 with
              | None => (Thrown IOError, st')
              | Some content =>
                  let (s1, content') :=
                    foldl (deleteRound prj) (fs st', content) affectedCards in
                  let s2 := if exist
                            then writeFile (cardTreeFile prj) content' s1
                            else s1 in
                  (Returned tt, mkState (Some prj) s2)
              end
          end
      end
  end.

(** When new cards are added, automatically calculate card-specific
    values.  An array, even an empty one, is truthy: only [undefined]
    takes the first exit. *)
Definition handleNewCards (cards : option (list card)) (st : State)
    : outcome unit * State :=
  match cards with
  | None => (Returned tt, st)
  | Some cards =>
      let firstCard := head cards in
      match setCalculateProject firstCard st with
      | (Thrown f, st') => (Thrown f, st')
      | (Returned _, st') =>
          match project st' with
          | None => (Thrown TypeError, st')
          | Some prj =>
              if negb (calculationsForTreeExist prj (fs st'))
              then (Returned tt, st')
              else
                (Returned tt,
                 mkState (Some prj)
                   (foldl (fun s c => generateCardTree prj (Some c) s)
                      (fs st') cards))
          end
      end
  end.

(** clingo's exit codes are bitfields. *)
Definition E_UNKNOWN : Z := 0.
Definition E_INTERRUPT : Z := 1.
Definition E_SAT : Z := 10.
Definition E_EXHAUST : Z := 20.
Definition E_MEMORY : Z := 33.
Definition E_ERROR : Z := 65.
Definition E_NO_RUN : Z := 128.

(** Truthiness of [code & mask]. *)
Definition overlaps (code mask : Z) : bool := negb (Z.land code mask =? 0).

Definition logIf (b : bool) (line : string) : list string :=
  if b then [line] else [].

(** The lines [console.error] receives for an exit status. *)
Definition exitDiagnostics (code : Z) : list string :=
  if negb (overlaps code E_SAT && overlaps code E_EXHAUST) then
    logIf (overlaps code E_ERROR) "Error"
    ++ logIf (overlaps code E_INTERRUPT) "Interrupted"
    ++ logIf (overlaps code E_MEMORY) "Out of memory"
    ++ logIf (overlaps code E_NO_RUN) "Not run"
    ++ logIf (overlaps code E_UNKNOWN) "Unknown error"
  else [].

Definition queryText (k : string) : string :=
  NL +:+
  "            #show." +:+ NL +:+
  "            #show field(Cardkey, Field, Value):" +:+ NL +:+
  "                field(Cardkey, Field, Value)," +:+ NL +:+
  "                Cardkey = " +:+ k +:+ "," +:+ NL +:+
  "                not userfield(Cardkey, Field)." +:+ NL +:+
  "            #show fieldtype(Cardkey, Field, Fieldtype):" +:+ NL +:+
  "                fieldtype(Cardkey, Field, Fieldtype)," +:+ NL +:+
  "                Cardkey = " +:+ k +:+ "," +:+ NL +:+
  "                not userfield(Cardkey, Field).".

Definition installGuidance : string :=
  "Cannot find " +:+ DQ +:+ "Clingo" +:+ DQ +:+ ". Please install "
    +:+ DQ +:+ "Clingo" +:+ DQ +:+ "." +:+ NL +:+
  "If using MacOs: " +:+ DQ +:+ "brew install clingo" +:+ DQ +:+ "." +:+ NL +:+
  "If using Windows: download sources and compile new version." +:+ NL +:+
  "If using Linux: check if your distribution contains pre-built package. Otherwise download sources and compile.".

Definition truthyText (o : option string) : bool :=
  match o with Some t => truthy t | None => false end.

Definition truthyNumber (o : option Z) : bool :=
  match o with Some n => negb (n =? 0) | None => false end.

(** What [run] answers once the solver process has ended, with the lines
    it logs. *)
Definition classify (clingo : SpawnResult) : requestStatus * list string :=
  if truthyText (stdout clingo) then
    (mkStatus 200 None (parseClingoResult (default EmptyString (stdout clingo))), [])
  else if truthyText (stderr clingo) && truthyNumber (status clingo) then
    (mkStatus 400 (Some "Clingo error") None,
     exitDiagnostics (default 0 (status clingo)))
  else
    (mkStatus 500 (Some installGuidance) None, []).

(** The solver process of [run]: the query text on standard input, the
    main logic program as last argument. *)
Definition invokeSolver (prj : Project) (c : card) : SpawnResult :=
  let text := queryText (key c) in
  let main := mainFile prj in
  spawnSync W logicBinaryName
    ["-"; "--outf=0"; "--out-ifs=\n"; "-V0"; main] text.

(** Runs a logic program. *)
Definition run (projectPath cardKey : string) (st : State)
    : (requestStatus * list string) * State :=
  let prj := newProject W projectPath in
  let st' := mkState (Some prj) (fs st) in
  match findSpecificCard W prj cardKey None with
  | None => ((notFound cardKey, []), st')
  | Some c => (classify (invokeSolver prj c), st')
  end.

End Calculate.

(** ** A small in-memory project container

    Card data held as a forest, with the calculation folder [.calc] below
    the project root; it provides the concrete instances used below. *)

Module Sample.

(** Modelled from the spec: the subtree traversal behind
    [Project.flattenCardArray], whose code is not embedded here; a card
    comes before its descendants. *)
Fixpoint flattenCard (c : card) : list card :=
  match c with
  | mkCard _ _ _ ch =>
      c :: match ch with
           | Some cs =>
               (fix go (l : list card) : list card :=
                  match l with
                  | [] => []
                  | x :: r => (flattenCard x ++ go r)%list
                  end) cs
           | None => []
           end
  end.

Definition flatten (cs : list card) : list card := flat_map flattenCard cs.

(** Modelled from the spec: the project container ([containers/project.js],
    whose code is not embedded here) over a forest of cards: a project at
    path [p] keeps its calculations in [p/.calc], [cards] lists the forest
    parents first, [findSpecificCard] looks a key up in that list,
    [findProjectRoot] answers [root] for the paths below it, and there are
    no calculation modules. *)
Definition world (root : string) (forest : list card) (solver : SpawnResult)
    : Collaborators :=
  mkCollaborators
    (fun p => mkProject p (joinPath p ".calc"))
    (fun _ => flatten forest)
    (fun _ k _ => List.find (fun c => String.eqb (key c) k) (flatten forest))
    (fun _ => [])
    flatten
    (fun p => match JS.stripPrefix root p with
              | Some _ => Some root
              | None => None
              end)
    (fun _ _ _ => solver).

Definition noSolver : SpawnResult := mkSpawnResult None None None.

Definition cardtype (t : string) : option (list (string * metadataValue)) :=
  Some [("cardtype", Str t)].

Definition demo3 : card :=
  mkCard "demo_3" "/proj/cardroot/demo_2/c/demo_3" (cardtype "page") None.
Definition demo1 : card :=
  mkCard "demo_1" "/proj/cardroot/demo_1" (cardtype "page") (Some []).
Definition demo2 : card :=
  mkCard "demo_2" "/proj/cardroot/demo_2" (cardtype "page") (Some [demo3]).

Definition prj : Project := mkProject "/proj" "/proj/.calc".

Definition emptyFS : FS := mkFS ∅ ∅.

End Sample.

(** ** Vocabulary of the statements below *)

(** Every character of [t] is in the class [cls]. *)
Definition allOf (cls : ascii -> bool) (t : string) : Prop :=
  forallb cls (list_ascii_of_string t) = true.

(** The success marker of the solver output. *)
Definition marker : string := "SATISFIABLE".

(** One derived fact on a line, then the marker. *)
Definition priorityOutput : string :=
  "field(card1," +:+ DQ +:+ "priority" +:+ DQ +:+ "," +:+ DQ +:+ "3" +:+ DQ +:+ ")"
    +:+ NL +:+ marker.

(** Output holding only a diagnostic of rule compilation. *)
Definition diagnosticOutput : string :=
  "main.lp:3:1-9: info: atom does not occur in any rule head".

(** The segments of a card's path. *)
Definition segments (c : card) : list string := JS.split sep (path c).

(** The card lies directly below the root folder [cardroot]. *)
Definition atTreeRoot (c : card) : Prop :=
  exists pre own, segments c = (pre ++ ["cardroot"; own])%list.

(** The per-card unit of [c] ends with a parent fact. *)
Definition hasParentFact (c : card) : Prop := parentFacts c <> EmptyString.

(** A card whose path is its key alone. *)
Definition looseCard : card := mkCard "decision_6" "decision_6" None None.


(** A batch of file writes, applied in order. *)
Definition applyWrites (ws : list (string * string)) (s : FS) : FS :=
  foldl (fun s w => writeFile w.1 w.2 s) s ws.

(** The writes of [generateCardTree], as a batch. *)
Definition cardWrites (prj : Project) (cs : list card) : list (string * string) :=
  map (fun c => (cardLogicFile prj (key c), logicProgram c)) cs.

Definition cardTreeWrites (W : Collaborators) (prj : Project)
    (parentCard : option card) : list (string * string) :=
  (cardWrites prj (getCards W prj parentCard)
   ++ [(cardTreeFile prj, cardTreeContent (projectCards W prj))])%list.

(** The writes of an unscoped [generate], as a batch. *)
Definition fullWrites (W : Collaborators) (prj : Project) : list (string * string) :=
  ([(baseFile prj, commonDefinitions)]
   ++ cardTreeWrites W prj None
   ++ [(modulesFile prj,
        String.concat EmptyString (map moduleRow (projectCalculations W prj)))]
   ++ [(mainFile prj, mainLogicFile)])%list.

(** The keys listed by the rows of a cardtree.lp text. *)
Definition rowsOf (ks : list string) : string :=
  String.concat EmptyString (map includeRow ks).

(** A card key made of word characters only. *)
Definition wordKey (k : string) : Prop := allOf isWordChar k.

(** [ks] without the first occurrence of [k]. *)
Fixpoint removeFirst (k : string) (ks : list string) : list string :=
  match ks with
  | [] => []
  | x :: r => if String.eqb x k then r else x :: removeFirst k r
  end.

(** [p] lies below the folder [d]. *)
Definition below (d p : string) : Prop := exists r, p = joinPath d r.

(** The project in effect once [setCalculateProject] has returned for
    card [c]: the one already bound, or the one found from the card's
    path. *)
Definition resolved (W : Collaborators) (c : option card) (st : State)
    (prj : Project) : Prop :=
  setCalculateProject W c st = (Returned tt, mkState (Some prj) (fs st)).

(** The writes of [handleNewCards] once the corpus is known to exist, as a
    batch. *)
Definition newCardsWrites (W : Collaborators) (prj : Project)
    (cards : list card) : list (string * string) :=
  flat_map (fun c => cardTreeWrites W prj (Some c)) cards.

(** [k] is the key of one of the cards [affected]. *)
Definition isAffected (affected : list card) (k : string) : bool :=
  existsb (String.eqb k) (map key affected).

(** The cards that are left when the cards [affected] are taken away. *)
Definition remaining (affected cards : list card) : list card :=
  List.filter (fun d => negb (isAffected affected (key d))) cards.



(** The keys left in the include list after the rounds of
    [handleDeleteCard]. *)
Definition withoutKeys (ks : list string) (affected : list card) : list string :=
  foldl (fun ks c => removeFirst (key c) ks) ks affected.

(** The text of cardtree.lp after the rounds of [handleDeleteCard]. *)
Definition withoutRows (content : string) (affected : list card) : string :=
  foldl (fun t c => JS.replace (includeRow (key c)) EmptyString t)
    content affected.

(** The files left once the per-card units of [cs] are removed. *)
Definition unitsRemoved (prj : Project) (m : gmap string string)
    (cs : list card) : gmap string string :=
  foldl (fun m c => delete (cardLogicFile prj (key c)) m) m cs.

(** A calculation folder holding the unit of [demo_1] but no
    cardtree.lp. *)
Definition unitWithoutTree : FS :=
  mkFS {[ cardLogicFile Sample.prj "demo_1" := logicProgram Sample.demo1 ]}
       (list_to_set ["/proj/.calc"; "/proj/.calc/cards"]).

(** A card that lies outside the sample project. *)
Definition strayCard : card :=
  mkCard "other_9" "/elsewhere/cardroot/other_9" None None.

(** The base, modules and main units of [prj] are the same in [s'] as in
    [s]. *)
Definition globalUnitsKept (prj : Project) (s s' : FS) : Prop :=
  files s' !! baseFile prj = files s !! baseFile prj
  /\ files s' !! modulesFile prj = files s !! modulesFile prj
  /\ files s' !! mainFile prj = files s !! mainFile prj.

(** The base, modules and main units of [prj] hold in [s'] what an
    unscoped generation writes. *)
Definition globalUnitsWritten (W : Collaborators) (prj : Project) (s' : FS) : Prop :=
  files s' !! baseFile prj = Some commonDefinitions
  /\ files s' !! modulesFile prj
     = Some (String.concat EmptyString (map moduleRow (projectCalculations W prj)))
  /\ files s' !! mainFile prj = Some mainLogicFile.

(** A file that is neither cardtree.lp nor a per-card unit of [prj]. *)
Definition apart (prj : Project) (p : string) : Prop :=
  p <> cardTreeFile prj /\ forall k, p <> cardLogicFile prj k.

(** ** Vocabulary of the further properties *)

(** [rest] is empty or starts with a character outside [cls]. *)
Definition stops (cls : ascii -> bool) (rest : string) : Prop :=
  match rest with
  | EmptyString => True
  | String c _ => cls c = false
  end.

(** A line of solver output holding one derived fact, with whatever
    follows the value. *)
Definition solverFact (g k f v rest : string) : string :=
  g +:+ "(" +:+ k +:+ ("," +:+ DQ) +:+ f +:+ (DQ +:+ ",") +:+ v +:+ rest.

(** [pre] is what comes before the first occurrence of [needle] in [s]. *)
Definition firstAt (needle pre s : string) : Prop :=
  (exists post, s = pre +:+ needle +:+ post)
  /\ forall a b, s = a +:+ needle +:+ b ->
                 (String.length pre <= String.length a)%nat.

(** The keys of the cards a generation scoped to [parentCard] writes. *)
Definition scopeKeys (W : Collaborators) (prj : Project)
    (parentCard : option card) : list string :=
  map key (getCards W prj parentCard).

(** The text of modules.lp. *)
Definition modulesContent (W : Collaborators) (prj : Project) : string :=
  String.concat EmptyString (map moduleRow (projectCalculations W prj)).

(** The key [k] belongs to a card of the subtree of one of the cards
    [cs], as the project reports the subtrees. *)
Definition covered (W : Collaborators) (prj : Project) (cs : list card)
    (k : string) : Prop :=
  exists c d, In c cs /\ In d (getCards W prj (Some c)) /\ key d = k.

(** The file system at the start of a generation, once the folders are
    made. *)
Definition prepared (prj : Project) (s : FS) : FS :=
  mkdirRecursive (cardsFolder prj) s.

(** The card [demo_2] after an edit of its metadata. *)
Definition demo2Edited : card :=
  mkCard "demo_2" "/proj/cardroot/demo_2"
    (Some [("cardtype", Str "decision"); ("labels", Arr ["urgent"])])
    (Some [Sample.demo3]).



(** * Properties *)

(** ** Facts about strings *)

Module StringFacts.

Lemma app_nil_r (s : string) : s +:+ EmptyString = s.
Proof. induction s as [|a s IH]; [reflexivity|]. cbn. by rewrite IH. Qed.

Lemma app_assoc (a b c : string) : (a +:+ b) +:+ c = a +:+ (b +:+ c).
Proof. induction a as [|x a IH]; [reflexivity|]. cbn. by rewrite IH. Qed.

Lemma app_cons (a : ascii) (s t : string) :
  String a s +:+ t = String a (s +:+ t).
Proof. reflexivity. Qed.

Lemma app_nil_l (s : string) : EmptyString +:+ s = s.
Proof. reflexivity. Qed.

Lemma length_app (a b : string) :
  String.length (a +:+ b) = (String.length a + String.length b)%nat.
Proof. induction a as [|x a IH]; [reflexivity|]. cbn. by rewrite IH. Qed.

Lemma app_inv_head (a b c : string) : a +:+ b = a +:+ c -> b = c.
Proof. induction a as [|x a IH]; cbn; [done|]. intros [= H]. auto. Qed.

Lemma app_eq_length (a b c d : string) :
  String.length a = String.length c -> a +:+ b = c +:+ d -> a = c /\ b = d.
Proof.
  revert c. induction a as [|x a IH]; intros [|y c] Hl H; cbn in *; try done.
  injection H as -> H. destruct (IH c) as [-> ->]; [lia|done|done].
Qed.

Lemma app_inv_tail (a b c : string) : a +:+ c = b +:+ c -> a = b.
Proof.
  intros H. apply (app_eq_length a c b c) in H; [tauto|].
  apply (f_equal String.length) in H. rewrite !length_app in H. lia.
Qed.

Lemma substring_0_app (t s : string) :
  String.substring 0 (String.length t) (t +:+ s) = t.
Proof.
  induction t as [|a t IH]; cbn; [by destruct s|]. by rewrite IH.
Qed.

Lemma substring_0_0 (s : string) : String.substring 0 0 s = EmptyString.
Proof. by destruct s. Qed.

Lemma list_ascii_app (a b : string) :
  list_ascii_of_string (a +:+ b)
  = (list_ascii_of_string a ++ list_ascii_of_string b)%list.
Proof. induction a as [|x a IH]; [reflexivity|]. cbn. by rewrite IH. Qed.

Lemma concat_app (l1 l2 : list string) :
  String.concat EmptyString (l1 ++ l2)%list
  = String.concat EmptyString l1 +:+ String.concat EmptyString l2.
Proof.
  induction l1 as [|x l1 IH]; [reflexivity|].
  destruct l1 as [|y l1].
  - cbn. destruct l2; cbn; [by rewrite app_nil_r|reflexivity].
  - change (String.concat EmptyString ((x :: y :: l1) ++ l2)%list)
      with (x +:+ EmptyString +:+ String.concat EmptyString ((y :: l1) ++ l2)%list).
    rewrite IH.
    change (String.concat EmptyString (x :: y :: l1))
      with (x +:+ EmptyString +:+ String.concat EmptyString (y :: l1)).
    cbn. by rewrite !app_assoc.
Qed.

Lemma concat_cons (x : string) (l : list string) :
  String.concat EmptyString (x :: l) = x +:+ String.concat EmptyString l.
Proof. apply (concat_app [x] l). Qed.

Lemma stripPrefix_Some (p s r : string) :
  JS.stripPrefix p s = Some r <-> s = p +:+ r.
Proof.
  revert s. induction p as [|a p IH]; intros s; cbn.
  - split; [by intros [= ->]|by intros ->].
  - destruct s as [|b s]; [split; [done|discriminate]|].
    destruct (Ascii.eqb_spec a b) as [->|Hne].
    + rewrite IH. split; [by intros ->|by intros [= ->]].
    + split; [done|]. intros [= ? ?]. done.
Qed.

Lemma stripPrefix_app (p r : string) : JS.stripPrefix p (p +:+ r) = Some r.
Proof. by apply stripPrefix_Some. Qed.

Lemma stripPrefix_same_head (a x y : string) :
  JS.stripPrefix (a +:+ x) (a +:+ y) = JS.stripPrefix x y.
Proof.
  induction a as [|c a IH]; [reflexivity|]. cbn. by rewrite Ascii.eqb_refl.
Qed.

End StringFacts.

(** ** The matcher only answers with real matches *)

Module RegexFacts.
Import Regex StringFacts.

Lemma starK_sound {A} cls s (k : string -> option A) x :
  starK cls s k = Some x ->
  exists t s', s = t +:+ s' /\ allOf cls t /\ k s' = Some x.
Proof.
  induction s as [|c s IH]; cbn; intros H.
  - by exists EmptyString, EmptyString.
  - destruct (cls c) eqn:Hc.
    + destruct (starK cls s k) as [y|] eqn:Hs.
      * injection H as ->. destruct (IH eq_refl) as (t & s' & -> & Ht & Hk).
        exists (String c t), s'. repeat split; [|done].
        unfold allOf in *. cbn. by rewrite Hc, Ht.
      * by exists EmptyString, (String c s).
    + by exists EmptyString, (String c s).
Qed.

Lemma plusK_sound {A} cls s (k : string -> option A) x :
  plusK cls s k = Some x ->
  exists t s', s = t +:+ s' /\ t <> EmptyString /\ allOf cls t /\ k s' = Some x.
Proof.
  destruct s as [|c s]; cbn; [done|].
  destruct (cls c) eqn:Hc; [|done]. intros H.
  apply starK_sound in H as (t & s' & -> & Ht & Hk).
  exists (String c t), s'. repeat split; [done| |done].
  unfold allOf in *. cbn. by rewrite Hc, Ht.
Qed.

Lemma consumed_app (t s' : string) : consumed (t +:+ s') s' = t.
Proof.
  unfold consumed. rewrite length_app.
  replace (String.length t + String.length s' - String.length s')%nat
    with (String.length t) by lia.
  apply substring_0_app.
Qed.

Lemma matchK_sound r : forall s caps k x,
  matchK r s caps k = Some x ->
  exists t s' caps',
    s = t +:+ s' /\ Matches r t caps caps' /\ k s' caps' = Some x.
Proof.
  induction r as [l|r1 IH1 r2 IH2|r1 IH1 r2 IH2|cls|n r IH];
    intros s caps k x H; cbn in H.
  - destruct (JS.stripPrefix l s) as [s'|] eqn:Hp; [|done].
    apply stripPrefix_Some in Hp. exists l, s', caps. eauto using Matches.
  - destruct (matchK r1 s caps k) as [y|] eqn:H1.
    + injection H as ->. destruct (IH1 _ _ _ _ H1) as (t & s' & c' & ? & ? & ?).
      exists t, s', c'. eauto using Matches.
    + destruct (IH2 _ _ _ _ H) as (t & s' & c' & ? & ? & ?).
      exists t, s', c'. eauto using Matches.
  - destruct (IH1 _ _ _ _ H) as (t1 & s1 & c1 & -> & M1 & H2).
    destruct (IH2 _ _ _ _ H2) as (t2 & s2 & c2 & -> & M2 & Hk).
    exists (t1 +:+ t2), s2, c2. rewrite app_assoc. eauto using Matches.
  - apply plusK_sound in H as (t & s' & -> & Hne & Ht & Hk).
    exists t, s', caps. eauto using Matches.
  - destruct (IH _ _ _ _ H) as (t & s' & c' & -> & M & Hk).
    rewrite consumed_app in Hk. exists t, s', (setCap n t c').
    eauto using Matches.
Qed.

Lemma matchHere_sound r s m :
  matchHere r s = Some m ->
  exists t s', s = t +:+ s' /\ Matches r t noCaptures m.
Proof.
  intros H. apply matchK_sound in H as (t & s' & c' & -> & M & [= ->]).
  eauto.
Qed.

Lemma exec_sound r s m :
  exec r s = Some m ->
  exists pre t post, s = pre +:+ t +:+ post /\ Matches r t noCaptures m.
Proof.
  induction s as [|c s IH]; cbn [exec].
  - destruct (matchHere r EmptyString) as [y|] eqn:H; [|done].
    intros [= ->]. apply matchHere_sound in H as (t & s' & ? & ?).
    by exists EmptyString, t, s'.
  - destruct (matchHere r (String c s)) as [y|] eqn:H.
    + intros [= ->]. apply matchHere_sound in H as (t & s' & ? & ?).
      by exists EmptyString, t, s'.
    + intros H'. destruct (IH H') as (pre & t & post & -> & M).
      by exists (String c pre), t, post.
Qed.

(** What a match of the pattern of [parseInput] looks like. *)
Lemma fieldRegex_shape t m :
  Matches fieldRegex t noCaptures m ->
  exists g k f v,
    (g = "field" \/ g = "fieldtype") /\
    k <> EmptyString /\ allOf isWordChar k /\
    f <> EmptyString /\ allOf isWordChar f /\
    v <> EmptyString /\ allOf isValueChar v /\
    t = g +:+ "(" +:+ k +:+ ("," +:+ DQ) +:+ f +:+ (DQ +:+ ",") +:+ v /\
    group m 1 = g /\ group m 2 = k /\ group m 3 = f /\ group m 4 = v.
Proof.
  unfold fieldRegex. intros H.
  repeat match goal with
         | H : Matches (RSeq _ _) _ _ _ |- _ => inversion H; subst; clear H
         | H : Matches (RGroup _ _) _ _ _ |- _ => inversion H; subst; clear H
         | H : Matches (RPlus _) _ _ _ |- _ => inversion H; subst; clear H
         | H : Matches (RLit _) _ _ _ |- _ => inversion H; subst; clear H
         end.
  match goal with
  | H : Matches (RAlt _ _) ?g _ _ |- _ =>
      exists g; inversion H; subst; clear H
  end;
  match goal with
  | H : Matches (RLit _) _ _ _ |- _ => inversion H; subst; clear H
  end;
  do 3 eexists; repeat split; eauto.
Qed.

End RegexFacts.

(** ** Result parsing *)

Module ParserFacts.
Import Regex StringFacts RegexFacts.

Lemma indexOf_absent (needle s : string) :
  (forall pre post, s <> pre +:+ needle +:+ post) ->
  JS.indexOf needle s = -1.
Proof.
  induction s as [|c s IH]; intros Habs; cbn.
  - destruct (JS.stripPrefix needle EmptyString) as [r|] eqn:Hp; [|done].
    apply stripPrefix_Some in Hp. by destruct (Habs EmptyString r).
  - destruct (JS.stripPrefix needle (String c s)) as [r|] eqn:Hp.
    + apply stripPrefix_Some in Hp. by destruct (Habs EmptyString r).
    + rewrite IH; [done|]. intros pre post ->.
      by apply (Habs (String c pre) post).
Qed.

Lemma indexOf_lower (needle s : string) : -1 <= JS.indexOf needle s.
Proof.
  induction s as [|c s IH]; cbn.
  - destruct (JS.stripPrefix needle EmptyString); lia.
  - destruct (JS.stripPrefix needle (String c s)); [lia|].
    destruct (Z.ltb_spec (JS.indexOf needle s) 0); lia.
Qed.

Lemma indexOf_prefix (needle post : string) :
  JS.indexOf needle (needle +:+ post) = 0.
Proof.
  pose proof (stripPrefix_app needle post) as H.
  destruct (needle +:+ post); cbn -[JS.stripPrefix]; by rewrite H.
Qed.

Lemma indexOf_present (needle pre post : string) :
  0 <= JS.indexOf needle (pre +:+ needle +:+ post).
Proof.
  induction pre as [|c pre IH].
  - rewrite app_nil_l, indexOf_prefix. lia.
  - rewrite app_cons. cbn -[JS.stripPrefix].
    destruct (JS.stripPrefix needle _); [lia|].
    destruct (Z.ltb_spec (JS.indexOf needle (pre +:+ needle +:+ post)) 0); lia.
Qed.

Lemma indexOf_minus_one (needle s : string) :
  JS.indexOf needle s = -1 <-> forall pre post, s <> pre +:+ needle +:+ post.
Proof.
  split; [|apply indexOf_absent].
  intros H pre post ->. pose proof (indexOf_present needle pre post). lia.
Qed.

Lemma substring_to_minus_one (s : string) : JS.substring s 0 (-1) = EmptyString.
Proof.
  unfold JS.substring, JS.clamp.
  replace (Z.min (Z.max 0 (Z.min 0 (Z.of_nat (String.length s))))
             (Z.max 0 (Z.min (-1) (Z.of_nat (String.length s))))) with 0 by lia.
  replace (Z.max (Z.max 0 (Z.min 0 (Z.of_nat (String.length s))))
             (Z.max 0 (Z.min (-1) (Z.of_nat (String.length s)))) - 0) with 0 by lia.
  apply substring_0_0.
Qed.

Lemma parseLine_length (datum : string) : (List.length (parseLine datum) <= 1)%nat.
Proof.
  unfold parseLine. destruct datum; [cbn; lia|].
  destruct (exec fieldRegex _); cbn; lia.
Qed.

Lemma parseLine_shape (datum : string) (r : ParseResult) :
  In r (parseLine datum) ->
  allOf isWordChar (cardKey r) /\ allOf isWordChar (field r)
  /\ allOf isValueChar (value r).
Proof.
  unfold parseLine. destruct datum as [|c d]; [done|].
  destruct (exec fieldRegex (String c d)) as [m|] eqn:Hm; [|done].
  intros [<-|[]]. apply exec_sound in Hm as (pre & t & post & _ & M).
  apply fieldRegex_shape in M
    as (g & k & f & v & _ & _ & Hk & _ & Hf & _ & Hv & _ & _ & -> & -> & ->).
  done.
Qed.

(** The longer alternative is tried once the shorter one fails at the
    parenthesis; a line may carry text around the match. *)
Example parseInput_fieldtype :
  parseInput ("% " +:+ "fieldtype(card_7," +:+ DQ +:+ "owners" +:+ DQ +:+ ","
              +:+ DQ +:+ "cardkeys" +:+ DQ +:+ ")" +:+ NL +:+ NL +:+ "noise")
  = [mkParseResult "card_7" "owners" (DQ +:+ "cardkeys" +:+ DQ)].
Proof. by vm_compute. Qed.

(** Claim C10.  The result-line parser is total and shape-bounded: on every
    input [parseInput] gives a list, made of what each line obtained by
    splitting at line feeds contributes; a line contributes at most one
    derived fact, an empty line none, and a line no part of which matches
    the pattern none; so there are at most as many facts as lines.  In each
    fact the card key and the field hold only ASCII letters, digits and
    underscores, and the value only those, double quotes and spaces. *)
Theorem parseInput_total_and_shaped (input : string) :
  parseInput input = flat_map parseLine (JS.split newline input)
  /\ (forall datum, (List.length (parseLine datum) <= 1)%nat)
  /\ parseLine EmptyString = []
  /\ (forall datum,
        (forall pre t post m,
           datum = pre +:+ t +:+ post -> ~ Matches fieldRegex t noCaptures m) ->
        parseLine datum = [])
  /\ (List.length (parseInput input) <= List.length (JS.split newline input))%nat
  /\ Forall (fun r => allOf isWordChar (cardKey r)
                      /\ allOf isWordChar (field r)
                      /\ allOf isValueChar (value r)) (parseInput input).
Proof.
  split; [reflexivity|]. split; [apply parseLine_length|].
  split; [reflexivity|]. split; [|split].
  - intros datum Hno. unfold parseLine. destruct datum as [|c d]; [done|].
    destruct (exec fieldRegex (String c d)) as [m|] eqn:Hm; [|done].
    apply exec_sound in Hm as (pre & t & post & Heq & M).
    by destruct (Hno pre t post m).
  - unfold parseInput. induction (JS.split newline input) as [|d l IH]; [done|].
    cbn [flat_map]. rewrite List.length_app. cbn [List.length].
    pose proof (parseLine_length d). lia.
  - apply List.Forall_forall. intros r Hr. unfold parseInput in Hr.
    apply in_flat_map in Hr as (d & _ & Hd). by apply (parseLine_shape d).
Qed.

(** The value of the fact keeps the double quotes around the digit. *)
Lemma parseClingoResult_priority_unquoted :
  parseClingoResult priorityOutput
  <> Some [mkParseResult "card1" "priority" "3"].
Proof. vm_compute. discriminate. Qed.

(** Claim C2.  For the line holding the fact [field] of card [card1] with field
    [priority] and the quoted value 3, followed by the marker,
    [parseClingoResult] returns exactly one derived fact, with card key
    [card1], field [priority] and, as value, the digit 3 between its two
    double quotes; and for every input in which the marker does not occur
    it returns no result ([undefined]) instead of failing. *)
Theorem parseClingoResult_marker :
  parseClingoResult priorityOutput
  = Some [mkParseResult "card1" "priority" (DQ +:+ "3" +:+ DQ)]
  /\ forall data,
       (forall pre post, data <> pre +:+ marker +:+ post) ->
       parseClingoResult data = None.
Proof.
  split; [by vm_compute|].
  intros data Habs. unfold parseClingoResult.
  fold marker. rewrite (indexOf_absent marker data Habs).
  by rewrite substring_to_minus_one.
Qed.

Lemma parseClingoResult_marker_witness :
  parseClingoResult diagnosticOutput = None.
Proof.
  apply (proj2 parseClingoResult_marker).
  apply indexOf_minus_one. vm_compute. reflexivity.
Defined.

End ParserFacts.

(** ** Fact encoding: the parent fact *)

Module EncoderFacts.
Import StringFacts.





(** A path that is the key alone has no segment above the card's own: the
    card is not at the tree root, and yet its unit holds no parent fact. *)
Lemma loose_card_without_parent_fact :
  ~ atTreeRoot looseCard /\ ~ hasParentFact looseCard.
Proof.
  split.
  - intros (pre & own & H). apply (f_equal (@List.length string)) in H.
    rewrite List.length_app in H. cbn in H. lia.
  - intros H. by apply H.
Qed.





End EncoderFacts.

(** ** Solver invocation: the exit status *)

Module RunFacts.

Lemma overlaps_unknown (code : Z) : overlaps code E_UNKNOWN = false.
Proof. unfold overlaps, E_UNKNOWN. by rewrite Z.land_0_r. Qed.

Lemma exitDiagnostics_quiet (code : Z) :
  overlaps code E_SAT = true -> overlaps code E_EXHAUST = true ->
  exitDiagnostics code = [].
Proof. unfold exitDiagnostics. by intros -> ->. Qed.

Lemma exitDiagnostics_lines (code : Z) (line : string) :
  overlaps code E_SAT && overlaps code E_EXHAUST = false ->
  In line (exitDiagnostics code) <->
    (line = "Error" /\ overlaps code E_ERROR = true)
    \/ (line = "Interrupted" /\ overlaps code E_INTERRUPT = true)
    \/ (line = "Out of memory" /\ overlaps code E_MEMORY = true)
    \/ (line = "Not run" /\ overlaps code E_NO_RUN = true).
Proof.
  intros H. unfold exitDiagnostics. rewrite H. cbn [negb].
  rewrite overlaps_unknown. cbn [logIf]. rewrite List.app_nil_r.
  rewrite !in_app_iff.
  destruct (overlaps code E_ERROR), (overlaps code E_INTERRUPT),
    (overlaps code E_MEMORY), (overlaps code E_NO_RUN); cbn;
    intuition (try discriminate; try done; auto).
Qed.

(** A status with the satisfiable and exhausted bits set and the error bit
    clear, with nothing on standard output and a warning on standard error:
    the answer is the solver failure, not a success. *)
Lemma run_status_30_is_failure :
  let W := Sample.world "/proj" [Sample.demo1]
             (mkSpawnResult (Some EmptyString) (Some "warning") (Some 30)) in
  overlaps 30 E_SAT = true /\ overlaps 30 E_EXHAUST = true
  /\ overlaps 30 E_ERROR = false
  /\ statusCode (fst (fst (run W "/proj" "demo_1"
                             (mkState None Sample.emptyFS)))) <> 200.
Proof. vm_compute. repeat split; discriminate. Qed.

(** Claim C1.  When the solver process of [run] leaves standard output empty,
    standard error non-empty and a non-zero exit status, [run] answers with
    the validation-class failure (400, Clingo error) whatever the status;
    the status is decoded as a bitfield only to choose what is logged:
    nothing when it overlaps both the satisfiable and the exhausted mask,
    whatever the other bits, and otherwise one line for each of the error,
    interrupted, memory and not-run masks it overlaps.  When standard
    output is empty and standard error is empty or the status is zero or
    absent, [run] answers with the environment-class failure (500) that
    carries the guidance for installing the solver. *)
Theorem run_exit_status (W : Collaborators) (projectPath cardKey : string)
    (st : State) (c : card) :
  let prj := newProject W projectPath in
  let clingo := invokeSolver W prj c in
  findSpecificCard W prj cardKey None = Some c ->
  truthyText (stdout clingo) = false ->
  (forall code,
     truthyText (stderr clingo) = true -> status clingo = Some code ->
     code <> 0 ->
     fst (run W projectPath cardKey st)
       = (mkStatus 400 (Some "Clingo error") None, exitDiagnostics code)
     /\ (overlaps code E_SAT = true -> overlaps code E_EXHAUST = true ->
         exitDiagnostics code = [])
     /\ (overlaps code E_SAT && overlaps code E_EXHAUST = false ->
         forall line,
           In line (exitDiagnostics code) <->
             (line = "Error" /\ overlaps code E_ERROR = true)
             \/ (line = "Interrupted" /\ overlaps code E_INTERRUPT = true)
             \/ (line = "Out of memory" /\ overlaps code E_MEMORY = true)
             \/ (line = "Not run" /\ overlaps code E_NO_RUN = true)))
  /\ (truthyText (stderr clingo) = false \/ truthyNumber (status clingo) = false ->
      fst (run W projectPath cardKey st)
        = (mkStatus 500 (Some installGuidance) None, [])).
Proof.
  intros prj clingo Hc Hout. unfold run. fold prj. rewrite Hc. cbn [fst].
  fold clingo. unfold classify. rewrite Hout. split.
  - intros code Herr Hst Hne. rewrite Herr, Hst. cbn.
    rewrite (proj2 (Z.eqb_neq code 0) Hne). cbn.
    split; [done|]. split; [apply exitDiagnostics_quiet|].
    intros H line. by apply exitDiagnostics_lines.
  - intros [->| ->]; [done|]. by rewrite andb_false_r.
Qed.

Lemma run_exit_status_witness :
  let W := Sample.world "/proj" [Sample.demo1]
             (mkSpawnResult None (Some "error: syntax error") (Some 65)) in
  fst (run W "/proj" "demo_1" (mkState None Sample.emptyFS))
  = (mkStatus 400 (Some "Clingo error") None,
     ["Error"; "Interrupted"; "Out of memory"]).
Proof.
  intros W.
  destruct (run_exit_status W "/proj" "demo_1" (mkState None Sample.emptyFS)
              Sample.demo1 eq_refl eq_refl) as [H _].
  destruct (H 65 eq_refl eq_refl) as [-> _]; [lia|]. reflexivity.
Defined.

End RunFacts.

(** ** The file system under batches of writes *)

Module FSFacts.
Import StringFacts.

Lemma FS_eq (s1 s2 : FS) : files s1 = files s2 -> dirs s1 = dirs s2 -> s1 = s2.
Proof. destruct s1, s2; cbn; by intros -> ->. Qed.

Lemma applyWrites_cons (p c : string) (ws : list (string * string)) (s : FS) :
  applyWrites ((p, c) :: ws) s = applyWrites ws (writeFile p c s).
Proof. reflexivity. Qed.

Lemma applyWrites_app (ws1 ws2 : list (string * string)) (s : FS) :
  applyWrites (ws1 ++ ws2)%list s = applyWrites ws2 (applyWrites ws1 s).
Proof. unfold applyWrites. apply foldl_app. Qed.

Lemma dirs_applyWrites (ws : list (string * string)) (s : FS) :
  dirs (applyWrites ws s) = dirs s.
Proof.
  revert s. induction ws as [|[p c] ws IH]; intros s; [done|].
  by rewrite applyWrites_cons, IH.
Qed.

Lemma files_applyWrites (ws : list (string * string)) (s : FS) :
  files (applyWrites ws s) = list_to_map (reverse ws) ∪ files s.
Proof.
  revert s. induction ws as [|[p c] ws IH]; intros s.
  - cbn. by rewrite (left_id_L ∅ (∪)).
  - rewrite applyWrites_cons, IH. cbn [writeFile files].
    rewrite reverse_cons, list_to_map_app. cbn [list_to_map foldr fst snd].
    rewrite <- (assoc_L (∪)). f_equal.
    by rewrite insert_union_singleton_l, insert_empty.
Qed.

Lemma lookup_applyWrites_notin (ws : list (string * string)) (s : FS) (p : string) :
  ~ In p (map fst ws) -> files (applyWrites ws s) !! p = files s !! p.
Proof.
  revert s. induction ws as [|[q c] ws IH]; intros s Hin; [done|].
  cbn in Hin. rewrite applyWrites_cons, IH by tauto.
  cbn. apply lookup_insert_ne. tauto.
Qed.

Lemma lookup_applyWrites_in (ws : list (string * string)) (s : FS) (p : string) :
  In p (map fst ws) ->
  exists c, In (p, c) ws /\ files (applyWrites ws s) !! p = Some c.
Proof.
  revert s. induction ws as [|[q c] ws IH]; intros s Hin; [done|].
  rewrite applyWrites_cons.
  destruct (List.in_dec String.string_dec p (map fst ws)) as [Hl|Hl].
  - destruct (IH (writeFile q c s) Hl) as (c' & ? & ?). exists c'.
    split; [by right|done].
  - destruct Hin as [Hq|]; [|done]. cbn in Hq. subst q. exists c.
    split; [by left|]. rewrite lookup_applyWrites_notin by done.
    cbn. apply lookup_insert_eq.
Qed.

Lemma lookup_applyWrites_last (ws : list (string * string)) (s : FS)
    (p c : string) :
  files (applyWrites (ws ++ [(p, c)])%list s) !! p = Some c.
Proof. rewrite applyWrites_app. cbn. apply lookup_insert_eq. Qed.

(** Applying a batch twice is the same as applying it once. *)
Lemma applyWrites_twice (ws : list (string * string)) (s : FS) :
  applyWrites ws (applyWrites ws s) = applyWrites ws s.
Proof.
  apply FS_eq; [|by rewrite !dirs_applyWrites].
  rewrite !files_applyWrites, (assoc_L (∪)). f_equal. apply (idemp_L (∪)).
Qed.

Lemma mkdir_applyWrites (d : string) (ws : list (string * string)) (s : FS) :
  mkdirRecursive d (applyWrites ws s) = applyWrites ws (mkdirRecursive d s).
Proof.
  apply FS_eq; [|by rewrite dirs_applyWrites; cbn; rewrite dirs_applyWrites].
  cbn. by rewrite !files_applyWrites.
Qed.

Lemma mkdir_twice (d : string) (s : FS) :
  mkdirRecursive d (mkdirRecursive d s) = mkdirRecursive d s.
Proof.
  apply FS_eq; [done|]. cbn.
  by rewrite <- (assoc_L (∪)), (idemp_L (∪)).
Qed.

(** Paths of the units. *)
Lemma joinPath_assoc (a b c : string) :
  joinPath (joinPath a b) c = joinPath a (joinPath b c).
Proof. unfold joinPath. by rewrite !app_assoc. Qed.

Lemma cardLogicFile_below (prj : Project) (k : string) :
  cardLogicFile prj k
  = joinPath (calculationFolder prj) (joinPath "cards" k +:+ ".lp").
Proof. unfold cardLogicFile, cardsFolder, joinPath. by rewrite !app_assoc. Qed.

Ltac path_neq :=
  let H := fresh in
  intros H; rewrite ?cardLogicFile_below in H;
  unfold baseFile, cardTreeFile, modulesFile, mainFile, joinPath in H;
  apply app_inv_head in H; cbn in H; discriminate H.

Lemma cardLogicFile_not_tree prj k : cardLogicFile prj k <> cardTreeFile prj.
Proof. path_neq. Qed.
Lemma cardLogicFile_not_base prj k : cardLogicFile prj k <> baseFile prj.
Proof. path_neq. Qed.
Lemma cardLogicFile_not_modules prj k : cardLogicFile prj k <> modulesFile prj.
Proof. path_neq. Qed.
Lemma cardLogicFile_not_main prj k : cardLogicFile prj k <> mainFile prj.
Proof. path_neq. Qed.
Lemma tree_not_base prj : cardTreeFile prj <> baseFile prj.
Proof. path_neq. Qed.
Lemma tree_not_modules prj : cardTreeFile prj <> modulesFile prj.
Proof. path_neq. Qed.
Lemma tree_not_main prj : cardTreeFile prj <> mainFile prj.
Proof. path_neq. Qed.
Lemma base_not_modules prj : baseFile prj <> modulesFile prj.
Proof. path_neq. Qed.
Lemma base_not_main prj : baseFile prj <> mainFile prj.
Proof. path_neq. Qed.
Lemma modules_not_main prj : modulesFile prj <> mainFile prj.
Proof. path_neq. Qed.

Lemma cardLogicFile_inj prj k1 k2 :
  cardLogicFile prj k1 = cardLogicFile prj k2 -> k1 = k2.
Proof.
  unfold cardLogicFile, joinPath. rewrite !app_assoc. intros H.
  do 2 apply app_inv_head in H. by apply app_inv_tail in H.
Qed.

Lemma includeRow_inj k1 k2 : includeRow k1 = includeRow k2 -> k1 = k2.
Proof.
  unfold includeRow. intros H. do 3 apply app_inv_head in H.
  by apply app_inv_tail in H.
Qed.

End FSFacts.

(** ** Generation *)

Module GenerateFacts.
Import StringFacts FSFacts.

Section WithCollaborators.
Context (W : Collaborators).

Lemma foldl_writeCardFile (prj : Project) (cs : list card) (s : FS) :
  foldl (writeCardFile prj) s cs = applyWrites (cardWrites prj cs) s.
Proof. revert s. induction cs as [|c cs IH]; intros s; [done|]. cbn. apply IH. Qed.

Lemma cardTreeContent_rows (cs : list card) :
  cardTreeContent cs = rowsOf (map key cs).
Proof. unfold cardTreeContent, rowsOf. by rewrite List.map_map. Qed.

(** [generateCardTree] is one batch of writes: the units of the cards in
    scope, then cardtree.lp with one row per card of the project. *)
Lemma generateCardTree_writes (prj : Project) (parentCard : option card) (s : FS) :
  generateCardTree W prj parentCard s
  = applyWrites (cardTreeWrites W prj parentCard) s.
Proof.
  unfold generateCardTree, cardTreeWrites.
  rewrite foldl_writeCardFile, applyWrites_app.
  by destruct parentCard.
Qed.

Lemma generate_scoped (projectPath : string) (cardKey : option string)
    (st : State) (c : card) :
  let prj := newProject W projectPath in
  scopeOf W prj cardKey = Some (Some c) ->
  generate W projectPath cardKey st
  = (ok200,
     mkState (Some prj)
       (applyWrites (cardTreeWrites W prj (Some c))
          (mkdirRecursive (cardsFolder prj) (fs st)))).
Proof.
  intros prj H. unfold generate. fold prj. rewrite H.
  unfold generateBase, generateModules, generateMainLogicFile.
  by rewrite generateCardTree_writes.
Qed.

Lemma generate_unscoped (projectPath : string) (cardKey : option string)
    (st : State) :
  let prj := newProject W projectPath in
  scopeOf W prj cardKey = Some None ->
  generate W projectPath cardKey st
  = (ok200,
     mkState (Some prj)
       (applyWrites (fullWrites W prj)
          (mkdirRecursive (cardsFolder prj) (fs st)))).
Proof.
  intros prj H. unfold generate. fold prj. rewrite H.
  unfold generateBase, generateModules, generateMainLogicFile, fullWrites.
  rewrite generateCardTree_writes. by rewrite !applyWrites_app.
Qed.

Lemma generate_not_found (projectPath : string) (cardKey : option string)
    (st : State) :
  let prj := newProject W projectPath in
  scopeOf W prj cardKey = None ->
  fs (snd (generate W projectPath cardKey st)) = fs st.
Proof. intros prj H. unfold generate. fold prj. by rewrite H. Qed.

Lemma in_cardWrites (prj : Project) (cs : list card) (p : string) :
  In p (map fst (cardWrites prj cs)) ->
  exists c, In c cs /\ p = cardLogicFile prj (key c).
Proof.
  unfold cardWrites. rewrite List.map_map. cbn. intros H.
  apply in_map_iff in H as (c & <- & Hc). eauto.
Qed.

Lemma in_cardTreeWrites (prj : Project) (parentCard : option card) (p : string) :
  In p (map fst (cardTreeWrites W prj parentCard)) ->
  p = cardTreeFile prj
  \/ exists c, In c (getCards W prj parentCard) /\ p = cardLogicFile prj (key c).
Proof.
  unfold cardTreeWrites. rewrite List.map_app, in_app_iff. cbn.
  intros [H|[<-|[]]]; [right; by apply in_cardWrites|by left].
Qed.

(** What a batch of [generateCardTree] leaves alone. *)
Lemma cardTreeWrites_frame (prj : Project) (parentCard : option card)
    (s : FS) (p : string) :
  p <> cardTreeFile prj ->
  (forall c, In c (getCards W prj parentCard) -> p <> cardLogicFile prj (key c)) ->
  files (applyWrites (cardTreeWrites W prj parentCard) s) !! p = files s !! p.
Proof.
  intros Ht Hc. apply lookup_applyWrites_notin. intros Hin.
  apply in_cardTreeWrites in Hin as [->|(c & Hin & ->)]; [done|].
  by apply (Hc c).
Qed.

Lemma cardTreeWrites_tree (prj : Project) (parentCard : option card) (s : FS) :
  files (applyWrites (cardTreeWrites W prj parentCard) s) !! cardTreeFile prj
  = Some (rowsOf (map key (projectCards W prj))).
Proof.
  unfold cardTreeWrites. rewrite lookup_applyWrites_last.
  by rewrite cardTreeContent_rows.
Qed.

Lemma fullWrites_tree (prj : Project) (s : FS) :
  files (applyWrites (fullWrites W prj) s) !! cardTreeFile prj
  = Some (rowsOf (map key (projectCards W prj))).
Proof.
  unfold fullWrites. rewrite !applyWrites_app.
  rewrite !applyWrites_cons. cbn [applyWrites foldl writeFile files].
  rewrite lookup_insert_ne by (apply not_eq_sym, tree_not_main).
  rewrite lookup_insert_ne by (apply not_eq_sym, tree_not_modules).
  apply cardTreeWrites_tree.
Qed.

End WithCollaborators.

End GenerateFacts.

Module GenerateTheorems.
Import StringFacts FSFacts GenerateFacts.

(** A generation scoped to the card [demo_1], which has no children, lists
    all three cards of the project in cardtree.lp, not only the card in
    scope. *)
Lemma scoped_cardtree_lists_whole_project :
  let W := Sample.world "/proj" [Sample.demo1; Sample.demo2] Sample.noSolver in
  let st' := snd (generate W "/proj" (Some "demo_1")
                    (mkState None Sample.emptyFS)) in
  map key (getCards W Sample.prj (Some Sample.demo1)) = ["demo_1"]
  /\ files (fs st') !! cardTreeFile Sample.prj
     = Some (rowsOf ["demo_1"; "demo_2"; "demo_3"])
  /\ files (fs st') !! cardTreeFile Sample.prj <> Some (rowsOf ["demo_1"]).
Proof. vm_compute. repeat split; discriminate. Qed.

(** A project with the cards [root], [childA] (label [urgent]) and
    [childB]: generation writes three units, the units of the children hold
    a parent fact naming [root], the unit of [root] holds none, and the unit
    of [childA] holds its label. *)
Example generation_end_to_end :
  let root :=
    mkCard "root" "/proj/cardroot/root" (Some [])
      (Some [mkCard "childA" "/proj/cardroot/root/c/childA"
               (Some [("labels", Arr ["urgent"])]) None;
             mkCard "childB" "/proj/cardroot/root/c/childB" (Some []) None]) in
  let W := Sample.world "/proj" [root] Sample.noSolver in
  let s' := fs (snd (generate W "/proj" None (mkState None Sample.emptyFS))) in
  files s' !! cardLogicFile Sample.prj "root" = Some (NL +:+ "% root" +:+ NL)
  /\ files s' !! cardLogicFile Sample.prj "childA"
     = Some (NL +:+ "% childA" +:+ NL
             +:+ labelFact "childA" "urgent" +:+ parentFact "childA" "root")
  /\ files s' !! cardLogicFile Sample.prj "childB"
     = Some (NL +:+ "% childB" +:+ NL +:+ parentFact "childB" "root")
  /\ files s' !! cardTreeFile Sample.prj = Some (rowsOf ["root"; "childA"; "childB"])
  /\ size (files s') = 7%nat.
Proof. vm_compute. repeat split. Qed.

(** Claim C3.  After every generation, scoped to a subtree card or unscoped, the
    include list of cardtree.lp holds one row per card the project
    currently knows, for the whole project and in the project's order:
    without duplicates when the project's keys are distinct, and with a row
    for a key only if a known card has that key. *)
Theorem cardtree_lists_project_cards (W : Collaborators) (projectPath : string)
    (cardKey : option string) (st : State) (scope : option card) :
  let prj := newProject W projectPath in
  let st' := snd (generate W projectPath cardKey st) in
  let keys := map key (projectCards W prj) in
  scopeOf W prj cardKey = Some scope ->
  files (fs st') !! cardTreeFile prj = Some (rowsOf keys)
  /\ (List.NoDup keys -> List.NoDup (map includeRow keys))
  /\ (forall k, In (includeRow k) (map includeRow keys)
                <-> exists c, In c (projectCards W prj) /\ key c = k).
Proof.
  intros prj st' keys Hscope. split; [|split].
  - subst st'. destruct scope as [c|].
    + rewrite (generate_scoped W projectPath cardKey st c Hscope). cbn [snd fs].
      apply cardTreeWrites_tree.
    + rewrite (generate_unscoped W projectPath cardKey st Hscope). cbn [snd fs].
      apply fullWrites_tree.
  - induction 1 as [|k ks Hnin Hnd IH]; cbn; constructor; [|done].
    rewrite in_map_iff. intros (k' & Heq & Hin).
    apply includeRow_inj in Heq. by subst k'.
  - intros k. subst keys. rewrite in_map_iff. split.
    + intros (k' & Heq & Hin). apply includeRow_inj in Heq as ->.
      apply in_map_iff in Hin as (c & <- & Hc). eauto.
    + intros (c & Hc & <-). exists (key c). split; [done|]. by apply in_map.
Qed.

Lemma cardtree_lists_project_cards_witness :
  let W := Sample.world "/proj" [Sample.demo1; Sample.demo2] Sample.noSolver in
  files (fs (snd (generate W "/proj" (Some "demo_2")
                    (mkState None Sample.emptyFS)))) !! cardTreeFile Sample.prj
  = Some (rowsOf ["demo_1"; "demo_2"; "demo_3"]).
Proof.
  intros W.
  exact (proj1 (cardtree_lists_project_cards W "/proj" (Some "demo_2")
                  (mkState None Sample.emptyFS) (Some Sample.demo2) eq_refl)).
Defined.

(** Claim C7.  Full generation is idempotent: for a project whose cards have
    distinct keys, so that every unit is written once, a second unscoped
    generation over the same card data gives the same status and leaves the
    state it finds as it is; every unit the generation writes (base,
    cardtree, modules, main and each per-card unit) exists after the first
    and has the same bytes after the second. *)
Theorem full_generation_idempotent (W : Collaborators) (projectPath : string)
    (st : State) :
  let prj := newProject W projectPath in
  let r1 := generate W projectPath None st in
  let r2 := generate W projectPath None (snd r1) in
  List.NoDup (map key (projectCards W prj)) ->
  fst r2 = fst r1
  /\ snd r2 = snd r1
  /\ forall p,
       In p ([baseFile prj; cardTreeFile prj; modulesFile prj; mainFile prj]
             ++ map (fun c => cardLogicFile prj (key c)) (projectCards W prj))%list ->
       is_Some (files (fs (snd r1)) !! p)
       /\ files (fs (snd r2)) !! p = files (fs (snd r1)) !! p.
Proof.
  intros prj r1 r2 _. subst r1 r2.
  rewrite !(generate_unscoped W projectPath None _ eq_refl). fold prj.
  cbn [fst snd fs].
  assert (applyWrites (fullWrites W prj)
            (mkdirRecursive (cardsFolder prj)
               (applyWrites (fullWrites W prj)
                  (mkdirRecursive (cardsFolder prj) (fs st))))
          = applyWrites (fullWrites W prj)
              (mkdirRecursive (cardsFolder prj) (fs st))) as Hsame.
  { by rewrite mkdir_applyWrites, mkdir_twice, applyWrites_twice. }
  rewrite Hsame. split; [done|]. split; [done|]. intros p Hp.
  split; [|done].
  destruct (lookup_applyWrites_in (fullWrites W prj)
              (mkdirRecursive (cardsFolder prj) (fs st)) p) as (c & _ & ->);
    [|done].
  unfold fullWrites, cardTreeWrites. cbn [getCards].
  rewrite !List.map_app. unfold cardWrites. rewrite List.map_map. cbn.
  rewrite !in_app_iff. cbn. cbn in Hp. tauto.
Qed.

Lemma full_generation_idempotent_witness :
  let W := Sample.world "/proj" [Sample.demo1; Sample.demo2] Sample.noSolver in
  let r1 := generate W "/proj" None (mkState None Sample.emptyFS) in
  let r2 := generate W "/proj" None (snd r1) in
  map key (projectCards W Sample.prj) = ["demo_1"; "demo_2"; "demo_3"]
  /\ fst r2 = fst r1 /\ snd r2 = snd r1
  /\ files (fs (snd r2)) !! cardLogicFile Sample.prj "demo_3"
     = Some (logicProgram Sample.demo3).
Proof.
  intros W r1 r2. split; [reflexivity|].
  assert (List.NoDup (map key (projectCards W (newProject W "/proj")))) as Hnd.
  { change (List.NoDup ["demo_1"; "demo_2"; "demo_3"]).
    repeat constructor; cbn; intuition discriminate. }
  destruct (full_generation_idempotent W "/proj" (mkState None Sample.emptyFS) Hnd)
    as (Hfst & Hsnd & Hunits).
  split; [exact Hfst|]. split; [exact Hsnd|].
  destruct (Hunits (cardLogicFile Sample.prj "demo_3")) as [_ Hsame].
  { right. right. right. right. right. right. by left. }
  etransitivity; [exact Hsame|]. by vm_compute.
Defined.

End GenerateTheorems.

(** ** Lists of cards *)

Module CardFacts.

Lemma same_key_same_card (l : list card) (a b : card) :
  List.NoDup (map key l) -> In a l -> In b l -> key a = key b -> a = b.
Proof.
  induction l as [|x l IH]; [done|]. cbn [map]. intros Hnd Ha Hb Hk.
  apply List.NoDup_cons_iff in Hnd as [Hx Hnd].
  destruct Ha as [->|Ha], Hb as [->|Hb]; [done| | |by apply IH].
  - destruct Hx. rewrite Hk. by apply in_map.
  - destruct Hx. rewrite <- Hk. by apply in_map.
Qed.

Lemma isAffected_spec (affected : list card) (k : string) :
  isAffected affected k = true <-> In k (map key affected).
Proof.
  unfold isAffected. rewrite existsb_exists. split.
  - intros (x & Hx & Heq). apply String.eqb_eq in Heq. by subst.
  - intros H. exists k. split; [done|apply String.eqb_refl].
Qed.

Lemma remaining_keys (affected cards : list card) :
  map key (remaining affected cards)
  = List.filter (fun k => negb (isAffected affected k)) (map key cards).
Proof.
  unfold remaining. induction cards as [|d cards IH]; [done|]. cbn.
  destruct (negb (isAffected affected (key d))); cbn; by rewrite IH.
Qed.

Lemma in_remaining (affected cards : list card) (d : card) :
  In d (remaining affected cards) <->
  In d cards /\ ~ In (key d) (map key affected).
Proof.
  unfold remaining. rewrite List.filter_In, negb_true_iff.
  rewrite <- isAffected_spec.
  destruct (isAffected affected (key d)); intuition congruence.
Qed.



End CardFacts.

(** ** The handlers of card events *)

Module HandlerFacts.
Import StringFacts FSFacts GenerateFacts.

Section WithCollaborators.
Context (W : Collaborators).

Lemma setCalculateProject_bound (c : option card) (st : State) (prj : Project) :
  project st = Some prj -> setCalculateProject W c st = (Returned tt, st).
Proof. intros H. unfold setCalculateProject. by rewrite H. Qed.

Lemma resolved_bound (c : option card) (st : State) (prj : Project) :
  project st = Some prj -> resolved W c st prj.
Proof.
  intros H. unfold resolved. rewrite (setCalculateProject_bound c st prj H).
  destruct st; cbn in *; by subst.
Qed.

Lemma setCalculateProject_fs (c : option card) (st : State) :
  fs (snd (setCalculateProject W c st)) = fs st.
Proof.
  unfold setCalculateProject. destruct (project st); [done|].
  destruct c as [c|]; [|done].
  destruct (findProjectRoot W (path c)) as [root|]; [|done].
  by destruct (truthy root).
Qed.

(** [setCalculateProject] either returns with some project bound, or
    throws and leaves the state as it is. *)
Lemma setCalculateProject_cases (c : option card) (st : State) :
  (exists prj, resolved W c st prj)
  \/ (exists f, setCalculateProject W c st = (Thrown f, st) /\ project st = None).
Proof.
  unfold resolved, setCalculateProject. destruct st as [[prj|] s]; cbn.
  - left. by exists prj.
  - destruct c as [c|]; [|right; eauto].
    destruct (findProjectRoot W (path c)) as [root|]; [|right; eauto].
    destruct (truthy root); [left; eauto|right; eauto].
Qed.

(** The loop of [handleNewCards] is one batch of writes. *)
Lemma newCards_batch (prj : Project) (cards : list card) (s : FS) :
  foldl (fun s c => generateCardTree W prj (Some c) s) s cards
  = applyWrites (newCardsWrites W prj cards) s.
Proof.
  revert s. induction cards as [|c cs IH]; intros s; [done|].
  cbn [foldl]. rewrite IH, generateCardTree_writes.
  unfold newCardsWrites. cbn [flat_map]. by rewrite applyWrites_app.
Qed.

Lemma handleNewCards_resolved (cards : list card) (st : State) (prj : Project) :
  resolved W (head cards) st prj ->
  handleNewCards W (Some cards) st
  = (Returned tt,
     mkState (Some prj)
       (if calculationsForTreeExist prj (fs st)
        then applyWrites (newCardsWrites W prj cards) (fs st)
        else fs st)).
Proof.
  intros H. unfold handleNewCards. rewrite H. cbn [project fs].
  destruct (calculationsForTreeExist prj (fs st)); cbn [negb]; [|done].
  by rewrite newCards_batch.
Qed.

Lemma in_newCardsWrites (prj : Project) (cards : list card) (p content : string) :
  In (p, content) (newCardsWrites W prj cards) ->
  (p = cardTreeFile prj /\ content = rowsOf (map key (projectCards W prj)))
  \/ exists c d, In c cards /\ In d (getCards W prj (Some c))
                 /\ p = cardLogicFile prj (key d) /\ content = logicProgram d.
Proof.
  unfold newCardsWrites. rewrite in_flat_map. intros (c & Hc & Hin).
  unfold cardTreeWrites in Hin. apply in_app_iff in Hin as [Hin|[Hin|[]]].
  - right. unfold cardWrites in Hin. apply in_map_iff in Hin as (d & [= <- <-] & Hd).
    eauto 6.
  - left. injection Hin as <- <-. by rewrite cardTreeContent_rows.
Qed.

Lemma newCardsWrites_paths (prj : Project) (cards : list card) (p : string) :
  In p (map fst (newCardsWrites W prj cards)) <->
  (cards <> [] /\ p = cardTreeFile prj)
  \/ exists c d, In c cards /\ In d (getCards W prj (Some c))
                 /\ p = cardLogicFile prj (key d).
Proof.
  split.
  - intros H. assert (cards <> []) as Hne by (by intros ->).
    apply in_map_iff in H as ([q content] & <- & Hin). cbn.
    apply in_newCardsWrites in Hin as [[-> _]|(c & d & ? & ? & -> & _)].
    + by left.
    + right. eauto.
  - intros [[Hne ->]|(c & d & Hc & Hd & ->)].
    + destruct cards as [|c cs]; [done|]. unfold newCardsWrites. cbn [flat_map].
      rewrite List.map_app, in_app_iff. left. unfold cardTreeWrites.
      rewrite List.map_app, in_app_iff. right. by left.
    + unfold newCardsWrites. apply in_map_iff.
      exists (cardLogicFile prj (key d), logicProgram d). split; [done|].
      apply in_flat_map. exists c. split; [done|]. unfold cardTreeWrites.
      apply in_app_iff. left. unfold cardWrites. apply in_map_iff. eauto.
Qed.

End WithCollaborators.

End HandlerFacts.

Module NewCardsTheorems.
Import StringFacts FSFacts CardFacts GenerateFacts HandlerFacts.





End NewCardsTheorems.

(** ** Removing include rows *)

Module RowFacts.
Import StringFacts FSFacts.

Lemma replace_unfold (pat rep s : string) :
  JS.replace pat rep s
  = match JS.stripPrefix pat s with
    | Some rest => rep +:+ rest
    | None =>
        match s with
        | EmptyString => EmptyString
        | String a s' => String a (JS.replace pat rep s')
        end
    end.
Proof. by destruct s. Qed.

(** A pattern cannot start where its first character does not occur. *)
Lemma replace_skip (h : ascii) (pt rep a rest : string) :
  allOf (fun c => negb (Ascii.eqb h c)) a ->
  JS.replace (String h pt) rep (a +:+ rest)
  = a +:+ JS.replace (String h pt) rep rest.
Proof.
  unfold allOf. induction a as [|c a IH]; [done|]. cbn [list_ascii_of_string forallb].
  intros [Hc Ha]%andb_prop. rewrite app_cons, replace_unfold.
  cbn [JS.stripPrefix]. destruct (Ascii.eqb h c); [done|]. by rewrite IH.
Qed.

Lemma replace_past (h : ascii) (pt rep a rest : string) :
  allOf (fun c => negb (Ascii.eqb h c)) a ->
  JS.stripPrefix (String h pt) (String h a +:+ rest) = None ->
  JS.replace (String h pt) rep (String h a +:+ rest)
  = String h a +:+ JS.replace (String h pt) rep rest.
Proof.
  intros Ha Hp. rewrite replace_unfold, Hp.
  change (String h a +:+ rest) with (String h (a +:+ rest)).
  change (String h a +:+ JS.replace (String h pt) rep rest)
    with (String h (a +:+ JS.replace (String h pt) rep rest)).
  f_equal. by apply replace_skip.
Qed.

Lemma wordChar_not_dot (c : ascii) : isWordChar c = true -> c <> "."%char.
Proof. by intros H ->. Qed.

Lemma wordChar_not_hash (c : ascii) :
  isWordChar c = true -> negb (Ascii.eqb "#" c) = true.
Proof.
  intros H. destruct (Ascii.eqb_spec "#" c) as [<-|]; [|done].
  vm_compute in H. discriminate.
Qed.

Lemma wordKey_cons (a : ascii) (k : string) :
  wordKey (String a k) <-> isWordChar a = true /\ wordKey k.
Proof. unfold wordKey, allOf. cbn [list_ascii_of_string forallb]. apply andb_true_iff. Qed.

(** Two keys followed by a dot: one is a prefix of the other only if they
    are the same key. *)
Lemma word_prefix_eq (k x s1 s2 r : string) :
  wordKey k -> wordKey x ->
  JS.stripPrefix (k +:+ String "." s1) (x +:+ String "." s2) = Some r ->
  k = x.
Proof.
  revert x. induction k as [|a k IH]; intros [|b x] Hk Hx; cbn -[Ascii.eqb].
  - done.
  - apply wordKey_cons in Hx as [Hb _]. apply wordChar_not_dot in Hb.
    destruct (Ascii.eqb_spec "." b); [congruence|done].
  - apply wordKey_cons in Hk as [Ha _]. apply wordChar_not_dot in Ha.
    destruct (Ascii.eqb_spec a "."); [congruence|done].
  - apply wordKey_cons in Hk as [_ Hk]. apply wordKey_cons in Hx as [_ Hx].
    destruct (Ascii.eqb_spec a b) as [->|]; [|done].
    intros H. f_equal. by apply IH.
Qed.

Lemma includeRow_split (k : string) :
  includeRow k
  = String "#" (("include " +:+ DQ +:+ "cards/") +:+ k
                 +:+ String "." ("lp" +:+ DQ +:+ "." +:+ NL)).
Proof. unfold includeRow. by rewrite !app_assoc. Qed.

Lemma row_tail_without_hash (k : string) :
  wordKey k ->
  allOf (fun c => negb (Ascii.eqb "#" c))
    (("include " +:+ DQ +:+ "cards/") +:+ k
       +:+ String "." ("lp" +:+ DQ +:+ "." +:+ NL)).
Proof.
  intros Hk. unfold allOf. rewrite !list_ascii_app, !forallb_app.
  repeat (apply andb_true_intro; split); try done.
  unfold wordKey, allOf in Hk. rewrite forallb_forall in *.
  intros c Hc. apply wordChar_not_hash. auto.
Qed.

Lemma stripPrefix_row (k x rest r : string) :
  wordKey k -> wordKey x ->
  JS.stripPrefix (includeRow k) (includeRow x +:+ rest) = Some r -> k = x.
Proof.
  intros Hk Hx. rewrite !includeRow_split, !app_cons.
  cbn [JS.stripPrefix]. rewrite Ascii.eqb_refl, !app_assoc.
  rewrite stripPrefix_same_head, app_cons. by apply word_prefix_eq.
Qed.

(** Replacing the row of [k] in a list of rows removes the first row of
    [k], and nothing else. *)
Lemma replace_row (k : string) (ks : list string) :
  wordKey k -> Forall wordKey ks ->
  JS.replace (includeRow k) EmptyString (rowsOf ks) = rowsOf (removeFirst k ks).
Proof.
  intros Hk. induction 1 as [|x ks Hx Hks IH]; [done|].
  unfold rowsOf in *. cbn [map removeFirst]. rewrite concat_cons.
  destruct (String.eqb_spec x k) as [->|Hne].
  - by rewrite replace_unfold, stripPrefix_app.
  - destruct (JS.stripPrefix (includeRow k)
                (includeRow x +:+ String.concat EmptyString (map includeRow ks)))
      as [r|] eqn:Hp.
    { apply stripPrefix_row in Hp; [by subst|done..]. }
    cbn [map]. rewrite concat_cons, <- IH.
    rewrite (includeRow_split x), (includeRow_split k) in Hp |- *.
    by apply replace_past; [apply row_tail_without_hash|].
Qed.

Lemma removeFirst_wordKeys (k : string) (ks : list string) :
  Forall wordKey ks -> Forall wordKey (removeFirst k ks).
Proof.
  induction 1 as [|x ks Hx Hks IH]; cbn; [done|].
  destruct (String.eqb x k); [done|]. by constructor.
Qed.

Lemma withoutRows_rows (ks : list string) (affected : list card) :
  Forall wordKey ks -> Forall (fun c => wordKey (key c)) affected ->
  withoutRows (rowsOf ks) affected = rowsOf (withoutKeys ks affected).
Proof.
  intros Hks Haff. revert ks Hks.
  induction Haff as [|c cs Hc Hcs IH]; intros ks Hks; [done|].
  unfold withoutRows, withoutKeys in *. cbn [foldl].
  rewrite replace_row by done. apply IH. by apply removeFirst_wordKeys.
Qed.

End RowFacts.

(** ** Deleting cards *)

Module DeleteFacts.
Import StringFacts FSFacts HandlerFacts RowFacts.

Section WithCollaborators.
Context (W : Collaborators).

Lemma unitsRemoved_cons (prj : Project) (m : gmap string string)
    (c : card) (cs : list card) :
  unitsRemoved prj m (c :: cs)
  = unitsRemoved prj (delete (cardLogicFile prj (key c)) m) cs.
Proof. reflexivity. Qed.

Lemma pathExists_false (p : string) (s : FS) :
  pathExists p s = false -> files s !! p = None.
Proof.
  unfold pathExists. intros [H _]%orb_false_elim.
  apply bool_decide_eq_false in H. by apply eq_None_not_Some.
Qed.

Lemma deleteRound_spec (prj : Project) (s : FS) (t : string) (c : card) :
  deleteRound prj (s, t) c
  = (mkFS (delete (cardLogicFile prj (key c)) (files s)) (dirs s),
     JS.replace (includeRow (key c)) EmptyString t).
Proof.
  unfold deleteRound. f_equal.
  destruct (pathExists _ s) eqn:Hex; [done|].
  apply pathExists_false in Hex. rewrite (delete_id _ _ Hex). by destruct s.
Qed.

Lemma deleteRounds_spec (prj : Project) (cs : list card) (s : FS) (t : string) :
  foldl (deleteRound prj) (s, t) cs
  = (mkFS (unitsRemoved prj (files s) cs) (dirs s), withoutRows t cs).
Proof.
  revert s t. induction cs as [|c cs IH]; intros s t; [by destruct s|].
  cbn [foldl]. by rewrite deleteRound_spec, IH.
Qed.

Lemma unitsRemoved_frame (prj : Project) (m : gmap string string)
    (cs : list card) (p : string) :
  (forall c, In c cs -> p <> cardLogicFile prj (key c)) ->
  unitsRemoved prj m cs !! p = m !! p.
Proof.
  revert m. induction cs as [|c cs IH]; intros m H; [done|].
  rewrite unitsRemoved_cons.
  rewrite IH by (intros; apply H; by right).
  apply lookup_delete_ne, not_eq_sym, H. by left.
Qed.

Lemma unitsRemoved_gone (prj : Project) (m : gmap string string)
    (cs : list card) (c : card) :
  In c cs -> unitsRemoved prj m cs !! cardLogicFile prj (key c) = None.
Proof.
  revert m c. induction cs as [|d cs IH]; intros m c H; [done|].
  rewrite unitsRemoved_cons.
  destruct (List.in_dec String.string_dec (key c) (map key cs)) as [Hin|Hout].
  - apply in_map_iff in Hin as (c' & Hk & Hc'). rewrite <- Hk. by apply IH.
  - destruct H as [->|H]; [|destruct Hout; by apply in_map].
    rewrite unitsRemoved_frame; [apply lookup_delete_eq|].
    intros c' Hc' Heq%cardLogicFile_inj. apply Hout. rewrite Heq. by apply in_map.
Qed.

Lemma unitsRemoved_absent (prj : Project) (m : gmap string string)
    (cs : list card) :
  (forall c, In c cs -> m !! cardLogicFile prj (key c) = None) ->
  unitsRemoved prj m cs = m.
Proof.
  induction cs as [|c cs IH]; intros H; [done|].
  rewrite unitsRemoved_cons.
  rewrite delete_id by (apply H; by left). apply IH. intros; apply H; by right.
Qed.

Lemma handleDeleteCard_resolved (deleted : card) (st : State) (prj : Project) :
  resolved W (Some deleted) st prj ->
  handleDeleteCard W (Some deleted) st
  = let affected := getCards W prj (Some deleted) in
    let exist := calculationsForTreeExist prj (fs st) in
    match (if exist then readFile (cardTreeFile prj) (fs st)
           else Some EmptyString) with
    | None => (Thrown IOError, mkState (Some prj) (fs st))
    | Some content =>
        let s1 := mkFS (unitsRemoved prj (files (fs st)) affected)
                    (dirs (fs st)) in
        (Returned tt,
         mkState (Some prj)
           (if exist
            then writeFile (cardTreeFile prj) (withoutRows content affected) s1
            else s1))
    end.
Proof.
  intros H. unfold handleDeleteCard. rewrite H. cbn [project fs].
  destruct (if calculationsForTreeExist prj (fs st) then _ else _); [|done].
  by rewrite deleteRounds_spec.
Qed.

End WithCollaborators.

End DeleteFacts.

Module DeleteTheorems.
Import StringFacts FSFacts HandlerFacts RowFacts DeleteFacts.

(** With the calculation folder present and cardtree.lp missing, deleting
    [demo_1] returns normally and removes the unit of the card: the file
    system is not left as it was. *)
Lemma delete_without_aggregator_removes_unit :
  let W := Sample.world "/proj" [Sample.demo1] Sample.noSolver in
  let r := handleDeleteCard W (Some Sample.demo1) (mkState None unitWithoutTree) in
  pathExists (cardTreeFile Sample.prj) unitWithoutTree = false
  /\ fst r = Returned tt
  /\ files unitWithoutTree !! cardLogicFile Sample.prj "demo_1"
     = Some (logicProgram Sample.demo1)
  /\ files (fs (snd r)) !! cardLogicFile Sample.prj "demo_1" = None
  /\ fs (snd r) <> unitWithoutTree.
Proof.
  intros W r. repeat split; try by vm_compute.
Qed.

(** Claim C6.  [handleDeleteCard], for the deleted card and every card of its
    subtree as the project reports them, removes the per-card unit if it is
    present, a missing unit being no error, and, when cardtree.lp and the
    calculation folder exist, rewrites cardtree.lp without the first
    occurrence of that card's include row: with keys made of word
    characters that is the removal of exactly that row from the list of
    rows.  When cardtree.lp or the calculation folder does not exist,
    cardtree.lp is not created and the units that are present are still
    removed, so the call leaves the file system as it is when none of these
    units is present.  Every other file is left as it is. *)
Theorem handleDeleteCard_effect (W : Collaborators) (st : State) :
  handleDeleteCard W None st = (Returned tt, st)
  /\ (forall deleted f,
        setCalculateProject W (Some deleted) st = (Thrown f, st) ->
        handleDeleteCard W (Some deleted) st = (Thrown f, st))
  /\ forall deleted prj,
       resolved W (Some deleted) st prj ->
       let affected := getCards W prj (Some deleted) in
       let exist := calculationsForTreeExist prj (fs st) in
       let r := handleDeleteCard W (Some deleted) st in
       let s' := fs (snd r) in
       (exist = false \/ is_Some (files (fs st) !! cardTreeFile prj) ->
        fst r = Returned tt
        /\ dirs s' = dirs (fs st)
        /\ (forall c, In c affected ->
              files s' !! cardLogicFile prj (key c) = None)
        /\ (forall p,
              p <> cardTreeFile prj ->
              (forall c, In c affected -> p <> cardLogicFile prj (key c)) ->
              files s' !! p = files (fs st) !! p))
       /\ (exist = false ->
           files s' !! cardTreeFile prj = files (fs st) !! cardTreeFile prj
           /\ ((forall c, In c affected ->
                  files (fs st) !! cardLogicFile prj (key c) = None) ->
               s' = fs st))
       /\ (forall content,
             exist = true -> files (fs st) !! cardTreeFile prj = Some content ->
             files s' !! cardTreeFile prj = Some (withoutRows content affected)
             /\ forall ks,
                  content = rowsOf ks -> Forall wordKey ks ->
                  Forall (fun c => wordKey (key c)) affected ->
                  files s' !! cardTreeFile prj
                  = Some (rowsOf (withoutKeys ks affected))).
Proof.
  split; [done|]. split.
  { intros deleted f H. unfold handleDeleteCard. by rewrite H. }
  intros deleted prj Hres affected exist r s'. subst r s'.
  rewrite (handleDeleteCard_resolved W deleted st prj Hres).
  fold affected. fold exist. cbv zeta. unfold readFile.
  split; [|split].
  - intros Hok.
    assert (exists content,
              (if exist then files (fs st) !! cardTreeFile prj
               else Some EmptyString) = Some content) as [content ->].
    { destruct exist; [|eauto]. destruct Hok as [|[content ->]]; [done|eauto]. }
    cbn [fst snd fs]. split; [done|]. split; [by destruct exist|]. split.
    + intros c Hc. destruct exist; cbn [files writeFile].
      * rewrite lookup_insert_ne by (apply not_eq_sym, cardLogicFile_not_tree).
        by apply unitsRemoved_gone.
      * by apply unitsRemoved_gone.
    + intros p Htree Hunits. destruct exist; cbn [files writeFile].
      * rewrite lookup_insert_ne by by apply not_eq_sym.
        by apply unitsRemoved_frame.
      * by apply unitsRemoved_frame.
  - intros ->. cbn [fst snd fs files]. split.
    + apply unitsRemoved_frame. intros c _ Heq. symmetry in Heq.
      by apply cardLogicFile_not_tree in Heq.
    + intros Habs. rewrite (unitsRemoved_absent prj _ _ Habs). by destruct (fs st).
  - intros content -> Hc. rewrite Hc. cbn [fst snd fs files writeFile].
    rewrite lookup_insert_eq. split; [done|].
    intros ks -> Hks Haff. by rewrite withoutRows_rows.
Qed.

Lemma handleDeleteCard_effect_witness :
  let W := Sample.world "/proj" [Sample.demo1; Sample.demo2] Sample.noSolver in
  let before := snd (generate W "/proj" None (mkState None Sample.emptyFS)) in
  let after := fs (snd (handleDeleteCard W (Some Sample.demo2) before)) in
  files after !! cardTreeFile Sample.prj = Some (rowsOf ["demo_1"])
  /\ files after !! cardLogicFile Sample.prj "demo_3" = None.
Proof.
  intros W before after.
  destruct (handleDeleteCard_effect W before) as (_ & _ & H).
  destruct (H Sample.demo2 Sample.prj eq_refl) as (Hunits & _ & Hrows).
  split.
  - destruct (Hrows (rowsOf ["demo_1"; "demo_2"; "demo_3"]) eq_refl) as [_ Hks].
    { by vm_compute. }
    apply (Hks ["demo_1"; "demo_2"; "demo_3"] eq_refl).
    + repeat constructor.
    + repeat constructor.
  - destruct Hunits as (_ & _ & Hgone & _).
    { right. eexists. by vm_compute. }
    apply (Hgone Sample.demo3). vm_compute. auto.
Defined.

End DeleteTheorems.

(** ** The bound project *)

Module BindingTheorems.
Import StringFacts FSFacts GenerateFacts HandlerFacts DeleteFacts.

Section WithCollaborators.
Context (W : Collaborators).

Lemma changed_in_batch (ws : list (string * string)) (s : FS) (p : string) :
  files (applyWrites ws s) !! p <> files s !! p -> In p (map fst ws).
Proof.
  intros H. destruct (List.in_dec String.string_dec p (map fst ws)); [done|].
  by rewrite lookup_applyWrites_notin in H.
Qed.

Lemma changed_in_batch_mkdir (ws : list (string * string)) (d : string)
    (s : FS) (p : string) :
  files (applyWrites ws (mkdirRecursive d s)) !! p <> files s !! p ->
  In p (map fst ws).
Proof. apply (changed_in_batch ws (mkdirRecursive d s)). Qed.

Lemma below_tree (prj : Project) : below (calculationFolder prj) (cardTreeFile prj).
Proof. by eexists. Qed.

Lemma below_unit (prj : Project) (k : string) :
  below (calculationFolder prj) (cardLogicFile prj k).
Proof. eexists. apply cardLogicFile_below. Qed.

Lemma cardTreeWrites_below (prj : Project) (parentCard : option card) (p : string) :
  In p (map fst (cardTreeWrites W prj parentCard)) ->
  below (calculationFolder prj) p.
Proof.
  intros [->|(c & _ & ->)]%in_cardTreeWrites; [apply below_tree|apply below_unit].
Qed.

Lemma fullWrites_below (prj : Project) (p : string) :
  In p (map fst (fullWrites W prj)) -> below (calculationFolder prj) p.
Proof.
  unfold fullWrites. rewrite !List.map_app, !in_app_iff. cbn [map fst In].
  intros [[<-|[]]|[H|[[<-|[]]|[<-|[]]]]]; try by eexists.
  by apply cardTreeWrites_below in H.
Qed.

Lemma generate_changes_below (projectPath : string) (cardKey : option string)
    (st : State) (p : string) :
  files (fs (snd (generate W projectPath cardKey st))) !! p <> files (fs st) !! p ->
  below (calculationFolder (newProject W projectPath)) p.
Proof.
  destruct (scopeOf W (newProject W projectPath) cardKey) as [[c|]|] eqn:Hscope.
  - rewrite (generate_scoped W projectPath cardKey st c Hscope). cbn [snd fs].
    intros H%changed_in_batch_mkdir. by apply cardTreeWrites_below in H.
  - rewrite (generate_unscoped W projectPath cardKey st Hscope). cbn [snd fs].
    intros H%changed_in_batch_mkdir. by apply fullWrites_below.
  - by rewrite (generate_not_found W projectPath cardKey st Hscope).
Qed.

Lemma handleDeleteCard_changes_below (deleted : card) (st : State)
    (prj : Project) (p : string) :
  resolved W (Some deleted) st prj ->
  files (fs (snd (handleDeleteCard W (Some deleted) st))) !! p
    <> files (fs st) !! p ->
  below (calculationFolder prj) p.
Proof.
  intros Hres. rewrite (handleDeleteCard_resolved W deleted st prj Hres).
  cbv zeta. intros H.
  destruct (String.string_dec p (cardTreeFile prj)) as [->|Htree];
    [apply below_tree|].
  destruct (List.in_dec String.string_dec p
              (map (fun c => cardLogicFile prj (key c))
                 (getCards W prj (Some deleted)))) as [Hin|Hout].
  { apply in_map_iff in Hin as (c & <- & _). apply below_unit. }
  exfalso. apply H. clear H.
  assert (forall c, In c (getCards W prj (Some deleted)) ->
                    p <> cardLogicFile prj (key c)) as Hunits.
  { intros c Hc ->. apply Hout. by apply (in_map (fun c => cardLogicFile prj (key c))). }
  destruct (if calculationsForTreeExist prj (fs st) then _ else _); [|done].
  cbn [snd fs]. destruct (calculationsForTreeExist prj (fs st));
    cbn [files writeFile].
  - rewrite lookup_insert_ne by by apply not_eq_sym.
    by apply unitsRemoved_frame.
  - by apply unitsRemoved_frame.
Qed.

Lemma handleNewCards_changes_below (cards : list card) (st : State)
    (prj : Project) (p : string) :
  resolved W (head cards) st prj ->
  files (fs (snd (handleNewCards W (Some cards) st))) !! p <> files (fs st) !! p ->
  below (calculationFolder prj) p.
Proof.
  intros Hres. rewrite (handleNewCards_resolved W cards st prj Hres).
  cbn [snd fs]. destruct (calculationsForTreeExist prj (fs st)); [|done].
  intros [[_ ->]|(c & d & _ & _ & ->)]%changed_in_batch%newCardsWrites_paths;
    [apply below_tree|apply below_unit].
Qed.

Lemma handleCardChanged_bound (c : card) (st : State) (prj : Project) :
  project st = Some prj ->
  handleCardChanged W c st
  = (Returned ok200, snd (generate W (basePath prj) (Some (key c)) st)).
Proof.
  intros H. unfold handleCardChanged.
  rewrite (setCalculateProject_bound W (Some c) st prj H), H.
  by destruct (generate W (basePath prj) (Some (key c)) st).
Qed.

Lemma generate_binds (projectPath : string) (cardKey : option string) (st : State) :
  project (snd (generate W projectPath cardKey st)) = Some (newProject W projectPath).
Proof. unfold generate. by destruct (scopeOf W _ cardKey). Qed.

End WithCollaborators.

End BindingTheorems.

Module ProjectBinding.
Import StringFacts FSFacts GenerateFacts HandlerFacts DeleteFacts BindingTheorems.

(** Claim C9.  The bound project is one static member with asymmetric binding.
    [generate] and [run] always rebind it to the project of their path
    argument.  With a project already bound, [setCalculateProject] returns
    at once without looking at the card, so [handleCardChanged],
    [handleDeleteCard] and [handleNewCards] never throw the
    project-resolution fault, whatever the card's path; the deletion and
    creation handlers keep the bound project, the change handler rebinds to
    the project of the bound project's base path; and every file they change
    lies below the bound project's calculation folder (for the change
    handler, given that the project made from that base path has the same
    calculation folder).  With no project bound, a card outside every
    project root makes each handler throw that fault. *)
Theorem bound_project_is_reused (W : Collaborators) :
  (forall projectPath cardKey st,
     project (snd (generate W projectPath cardKey st))
     = Some (newProject W projectPath))
  /\ (forall projectPath cardKey st,
        project (snd (run W projectPath cardKey st))
        = Some (newProject W projectPath))
  /\ (forall st prj,
        project st = Some prj ->
        (forall c, setCalculateProject W c st = (Returned tt, st))
        /\ (forall c msg,
              fst (handleCardChanged W c st) <> Thrown (NotInProject msg))
        /\ (forall c msg,
              fst (handleDeleteCard W c st) <> Thrown (NotInProject msg))
        /\ (forall cs msg,
              fst (handleNewCards W cs st) <> Thrown (NotInProject msg))
        /\ (forall c, project (snd (handleDeleteCard W c st)) = Some prj)
        /\ (forall cs, project (snd (handleNewCards W cs st)) = Some prj)
        /\ (forall c, project (snd (handleCardChanged W c st))
                      = Some (newProject W (basePath prj)))
        /\ (forall c p,
              files (fs (snd (handleDeleteCard W c st))) !! p
                <> files (fs st) !! p ->
              below (calculationFolder prj) p)
        /\ (forall cs p,
              files (fs (snd (handleNewCards W cs st))) !! p
                <> files (fs st) !! p ->
              below (calculationFolder prj) p)
        /\ (forall c p,
              calculationFolder (newProject W (basePath prj))
                = calculationFolder prj ->
              files (fs (snd (handleCardChanged W c st))) !! p
                <> files (fs st) !! p ->
              below (calculationFolder prj) p))
  /\ (forall st c,
        project st = None -> findProjectRoot W (path c) = None ->
        exists msg,
          fst (handleCardChanged W c st) = Thrown (NotInProject msg)
          /\ fst (handleDeleteCard W (Some c) st) = Thrown (NotInProject msg)
          /\ fst (handleNewCards W (Some [c]) st) = Thrown (NotInProject msg)).
Proof.
  split; [apply generate_binds|]. split.
  { intros projectPath cardKey st. unfold run.
    by destruct (findSpecificCard W _ cardKey None). }
  split.
  - intros st prj Hprj.
    assert (forall c, resolved W c st prj) as Hres
      by (intros c; by apply resolved_bound).
    split; [intros c; by apply (setCalculateProject_bound W c st prj)|].
    split; [intros c msg; by rewrite (handleCardChanged_bound W c st prj Hprj)|].
    split.
    { intros [c|] msg; [|done].
      rewrite (handleDeleteCard_resolved W c st prj (Hres _)). cbv zeta.
      by destruct (if calculationsForTreeExist prj (fs st) then _ else _). }
    split.
    { intros [cs|] msg; [|done].
      by rewrite (handleNewCards_resolved W cs st prj (Hres _)). }
    split.
    { intros [c|]; [|done].
      rewrite (handleDeleteCard_resolved W c st prj (Hres _)). cbv zeta.
      by destruct (if calculationsForTreeExist prj (fs st) then _ else _). }
    split.
    { intros [cs|]; [|done].
      by rewrite (handleNewCards_resolved W cs st prj (Hres _)). }
    split.
    { intros c. rewrite (handleCardChanged_bound W c st prj Hprj).
      apply generate_binds. }
    split.
    { intros [c|] p; [|done]. by apply handleDeleteCard_changes_below. }
    split.
    { intros [cs|] p; [|done]. by apply handleNewCards_changes_below. }
    intros c p Hsame. rewrite (handleCardChanged_bound W c st prj Hprj).
    cbn [snd]. intros H%generate_changes_below. by rewrite <- Hsame.
  - intros st c Hnone Hroot.
    exists ("Card '" +:+ key c +:+ "' not in project structure").
    unfold handleCardChanged, handleDeleteCard, handleNewCards. cbn [head].
    unfold setCalculateProject. by rewrite Hnone, Hroot.
Qed.

Lemma bound_project_is_reused_witness :
  let W := Sample.world "/proj" [Sample.demo1; Sample.demo2] Sample.noSolver in
  let st := mkState (Some Sample.prj) Sample.emptyFS in
  findProjectRoot W (path strayCard) = None
  /\ (forall msg,
        fst (handleDeleteCard W (Some strayCard) st) <> Thrown (NotInProject msg))
  /\ project (snd (handleNewCards W (Some [strayCard]) st)) = Some Sample.prj.
Proof.
  intros W st.
  destruct (bound_project_is_reused W) as (_ & _ & H & _).
  destruct (H st Sample.prj eq_refl) as (_ & _ & Hdel & _ & _ & Hnew & _).
  split; [reflexivity|]. split; [apply Hdel|apply Hnew].
Defined.

End ProjectBinding.

(** ** The project-wide units *)

Module GlobalUnits.
Import StringFacts FSFacts GenerateFacts HandlerFacts DeleteFacts BindingTheorems.

Section WithCollaborators.
Context (W : Collaborators).

Lemma kept_of_apart (prj : Project) (s s' : FS) :
  (forall p, apart prj p -> files s' !! p = files s !! p) ->
  globalUnitsKept prj s s'.
Proof.
  intros H. repeat split; apply H; split;
    auto using not_eq_sym, tree_not_base, tree_not_modules, tree_not_main,
      cardLogicFile_not_base, cardLogicFile_not_modules, cardLogicFile_not_main.
Qed.

Lemma generate_scoped_frame (projectPath k : string) (st : State) (p : string) :
  truthy k = true ->
  apart (newProject W projectPath) p ->
  files (fs (snd (generate W projectPath (Some k) st))) !! p = files (fs st) !! p.
Proof.
  intros Hk [Htree Hunits].
  destruct (scopeOf W (newProject W projectPath) (Some k)) as [[c|]|] eqn:Hscope.
  - rewrite (generate_scoped W projectPath (Some k) st c Hscope). cbn [snd fs].
    by rewrite cardTreeWrites_frame.
  - cbn in Hscope. rewrite Hk in Hscope.
    by destruct (findSpecificCard W _ k None).
  - by rewrite (generate_not_found W projectPath (Some k) st Hscope).
Qed.

Lemma handleDeleteCard_frame (deleted : card) (st : State) (prj : Project)
    (p : string) :
  resolved W (Some deleted) st prj -> apart prj p ->
  files (fs (snd (handleDeleteCard W (Some deleted) st))) !! p = files (fs st) !! p.
Proof.
  intros Hres [Htree Hunits].
  rewrite (handleDeleteCard_resolved W deleted st prj Hres). cbv zeta.
  destruct (if calculationsForTreeExist prj (fs st) then _ else _); [|done].
  cbn [snd fs]. destruct (calculationsForTreeExist prj (fs st));
    cbn [files writeFile].
  - rewrite lookup_insert_ne by by apply not_eq_sym.
    by apply unitsRemoved_frame.
  - by apply unitsRemoved_frame.
Qed.

Lemma handleNewCards_frame (cards : list card) (st : State) (prj : Project)
    (p : string) :
  resolved W (head cards) st prj -> apart prj p ->
  files (fs (snd (handleNewCards W (Some cards) st))) !! p = files (fs st) !! p.
Proof.
  intros Hres [Htree Hunits].
  rewrite (handleNewCards_resolved W cards st prj Hres). cbn [snd fs].
  destruct (calculationsForTreeExist prj (fs st)); [|done].
  apply lookup_applyWrites_notin. rewrite newCardsWrites_paths.
  intros [[_ ->]|(c & d & _ & _ & ->)]; [done|]. by eapply Hunits.
Qed.

Lemma handleCardChanged_resolved (c : card) (st : State) (prj : Project) :
  resolved W (Some c) st prj ->
  handleCardChanged W c st
  = (Returned ok200,
     snd (generate W (basePath prj) (Some (key c)) (mkState (Some prj) (fs st)))).
Proof.
  intros H. unfold handleCardChanged. rewrite H. cbn [project].
  by destruct (generate W (basePath prj) (Some (key c)) _).
Qed.

End WithCollaborators.

(** Claim C8.  A generation scoped to a subtree card leaves the base,
    modules and main units as they are, whether or not the card is found;
    an unscoped generation writes the three of them.  No other operation
    writes them: the change handler for a card with a non-empty key, the
    deletion handler and the creation handler leave them as they are, and
    [run] changes no file. *)
Theorem global_units_written_only_unscoped (W : Collaborators) (st : State) :
  (forall projectPath k,
     truthy k = true ->
     globalUnitsKept (newProject W projectPath) (fs st)
       (fs (snd (generate W projectPath (Some k) st))))
  /\ (forall projectPath cardKey,
        cardKey = None \/ cardKey = Some EmptyString ->
        globalUnitsWritten W (newProject W projectPath)
          (fs (snd (generate W projectPath cardKey st))))
  /\ (forall c prj,
        resolved W (Some c) st prj -> truthy (key c) = true ->
        globalUnitsKept (newProject W (basePath prj)) (fs st)
          (fs (snd (handleCardChanged W c st))))
  /\ (forall c prj,
        resolved W (Some c) st prj ->
        globalUnitsKept prj (fs st) (fs (snd (handleDeleteCard W (Some c) st))))
  /\ (forall cs prj,
        resolved W (head cs) st prj ->
        globalUnitsKept prj (fs st) (fs (snd (handleNewCards W (Some cs) st))))
  /\ (forall projectPath cardKey,
        fs (snd (run W projectPath cardKey st)) = fs st).
Proof.
  split.
  { intros projectPath k Hk. apply kept_of_apart. intros p Hp.
    by apply generate_scoped_frame. }
  split.
  { intros projectPath cardKey Hkey. set (prj := newProject W projectPath).
    assert (scopeOf W prj cardKey = Some None) as Hscope
      by (by destruct Hkey as [-> | ->]).
    rewrite (generate_unscoped W projectPath cardKey st Hscope).
    cbn [snd fs]. fold prj. unfold globalUnitsWritten, fullWrites.
    rewrite !applyWrites_app, !applyWrites_cons.
    cbn [applyWrites foldl writeFile files].
    split; [|split].
    - rewrite lookup_insert_ne by (apply not_eq_sym, base_not_main).
      rewrite lookup_insert_ne by (apply not_eq_sym, base_not_modules).
      rewrite cardTreeWrites_frame;
        auto using not_eq_sym, tree_not_base, cardLogicFile_not_base.
      cbn. apply lookup_insert_eq.
    - rewrite lookup_insert_ne by (apply not_eq_sym, modules_not_main).
      apply lookup_insert_eq.
    - apply lookup_insert_eq. }
  split.
  { intros c prj Hres Hk. rewrite (handleCardChanged_resolved W c st prj Hres).
    apply kept_of_apart. intros p Hp. cbn [snd].
    by rewrite (generate_scoped_frame W (basePath prj) (key c) _ p Hk Hp). }
  split.
  { intros c prj Hres. apply kept_of_apart. intros p Hp.
    by apply (handleDeleteCard_frame W c st prj). }
  split.
  { intros cs prj Hres. apply kept_of_apart. intros p Hp.
    by apply (handleNewCards_frame W cs st prj). }
  intros projectPath cardKey. unfold run.
  by destruct (findSpecificCard W _ cardKey None).
Qed.

Lemma global_units_written_only_unscoped_witness :
  let W := Sample.world "/proj" [Sample.demo1; Sample.demo2] Sample.noSolver in
  let st := mkState None Sample.emptyFS in
  files (fs (snd (generate W "/proj" (Some "demo_2") st))) !! baseFile Sample.prj
  = None
  /\ files (fs (snd (generate W "/proj" None st))) !! mainFile Sample.prj
     = Some mainLogicFile
  /\ files (fs (snd (handleDeleteCard W (Some Sample.demo2) st)))
       !! modulesFile Sample.prj = None.
Proof.
  intros W st.
  pose proof (global_units_written_only_unscoped W st)
    as (Hs & Hu & _ & Hd & _).
  split; [|split].
  - exact (proj1 (Hs "/proj" "demo_2" eq_refl)).
  - exact (proj2 (proj2 (Hu "/proj" None (or_introl eq_refl)))).
  - exact (proj1 (proj2 (Hd Sample.demo2 Sample.prj eq_refl))).
Defined.

End GlobalUnits.

(** * Further properties *)

(** ** The result parser on well-formed and on composed output *)

Module ParserExtras.
Import Regex StringFacts RegexFacts ParserFacts.

Lemma split_nonempty (c : ascii) (s : string) : JS.split c s <> [].
Proof.
  destruct s as [|a s]; cbn; [done|].
  destruct (Ascii.eqb a c); [done|]. by destruct (JS.split c s).
Qed.

Lemma split_app (c : ascii) (a b : string) :
  JS.split c (a +:+ String c b) = (JS.split c a ++ JS.split c b)%list.
Proof.
  induction a as [|x a IH].
  - cbn. by rewrite Ascii.eqb_refl.
  - rewrite app_cons. cbn [JS.split]. destruct (Ascii.eqb x c).
    + by rewrite IH.
    + rewrite IH. pose proof (split_nonempty c a).
      by destruct (JS.split c a).
Qed.

Lemma starK_all {A} (cls : ascii -> bool) (t rest : string)
    (k : string -> option A) (x : A) :
  allOf cls t -> stops cls rest -> k rest = Some x ->
  starK cls (t +:+ rest) k = Some x.
Proof.
  unfold allOf. intros Ht Hrest Hk. induction t as [|c t IH].
  - rewrite app_nil_l. destruct rest as [|c rest]; cbn; [done|].
    cbn in Hrest. by rewrite Hrest.
  - cbn in Ht. apply andb_prop in Ht as [Hc Ht]. rewrite app_cons. cbn.
    by rewrite Hc, (IH Ht).
Qed.

Lemma plusK_all {A} (cls : ascii -> bool) (t rest : string)
    (k : string -> option A) (x : A) :
  t <> EmptyString -> allOf cls t -> stops cls rest -> k rest = Some x ->
  plusK cls (t +:+ rest) k = Some x.
Proof.
  unfold allOf. destruct t as [|c t]; [done|]. intros _ Ht Hrest Hk.
  cbn in Ht. apply andb_prop in Ht as [Hc Ht]. rewrite app_cons. cbn.
  rewrite Hc. by apply starK_all.
Qed.

Lemma exec_here (r : regex) (s : string) (m : captures) :
  matchHere r s = Some m -> exec r s = Some m.
Proof. intros H. destruct s; cbn; by rewrite H. Qed.

(** The part of the pattern after group 1. *)
Lemma body_match (k f v rest : string) (caps : captures) :
  k <> EmptyString -> allOf isWordChar k ->
  f <> EmptyString -> allOf isWordChar f ->
  v <> EmptyString -> allOf isValueChar v -> stops isValueChar rest ->
  matchK
    (RSeq (RLit "(")
       (RSeq (RGroup 2 (RPlus isWordChar))
          (RSeq (RLit ("," +:+ DQ))
             (RSeq (RGroup 3 (RPlus isWordChar))
                (RSeq (RLit (DQ +:+ ",")) (RGroup 4 (RPlus isValueChar)))))))
    ("(" +:+ k +:+ ("," +:+ DQ) +:+ f +:+ (DQ +:+ ",") +:+ v +:+ rest)
    caps (fun _ c => Some c)
  = Some (setCap 4 v (setCap 3 f (setCap 2 k caps))).
Proof.
  intros Hk0 Hk Hf0 Hf Hv0 Hv Hrest.
  cbn [matchK]. rewrite stripPrefix_app.
  apply plusK_all; [done|done|done|]. rewrite consumed_app.
  rewrite stripPrefix_app.
  apply plusK_all; [done|done|done|]. rewrite consumed_app.
  rewrite stripPrefix_app.
  apply plusK_all; [done|done|done|]. by rewrite consumed_app.
Qed.

Lemma parseLine_of_match (datum : string) (m : captures) :
  datum <> EmptyString -> matchHere fieldRegex datum = Some m ->
  parseLine datum = [mkParseResult (group m 2) (group m 3) (group m 4)].
Proof.
  intros Hne Hm. unfold parseLine. rewrite (exec_here _ _ _ Hm).
  by destruct datum.
Qed.

(** Property X1.
    The parser reads back a fact written the way the solver prints it: a
    line that starts with [field] or [fieldtype], an opening parenthesis, a
    key and a quoted field name made of word characters, and a value made
    of value characters, followed by anything that does not continue the
    value (the closing parenthesis, say), gives exactly that key, field
    and value. *)
Theorem parseLine_reads_solver_fact (g k f v rest : string) :
  g = "field" \/ g = "fieldtype" ->
  k <> EmptyString -> allOf isWordChar k ->
  f <> EmptyString -> allOf isWordChar f ->
  v <> EmptyString -> allOf isValueChar v -> stops isValueChar rest ->
  parseLine (solverFact g k f v rest) = [mkParseResult k f v].
Proof.
  intros Hg Hk0 Hk Hf0 Hf Hv0 Hv Hrest.
  pose proof (fun caps => body_match k f v rest caps Hk0 Hk Hf0 Hf Hv0 Hv Hrest)
    as Hbody.
  cbn [matchK] in Hbody. unfold solverFact.
  destruct Hg as [-> | ->].
  - rewrite (parseLine_of_match _
               (setCap 4 v (setCap 3 f (setCap 2 k
                  (setCap 1 "field" noCaptures))))); [done|done|].
    unfold matchHere, fieldRegex. cbn [matchK].
    rewrite stripPrefix_app, consumed_app. by rewrite Hbody.
  - rewrite (parseLine_of_match _
               (setCap 4 v (setCap 3 f (setCap 2 k
                  (setCap 1 "fieldtype" noCaptures))))); [done|done|].
    unfold matchHere, fieldRegex. cbn [matchK].
    rewrite (stripPrefix_app "fieldtype"), consumed_app, Hbody.
    replace (JS.stripPrefix "field" _) with
      (Some ("type" +:+ "(" +:+ k +:+ ("," +:+ DQ) +:+ f +:+ (DQ +:+ ",")
             +:+ v +:+ rest)) by done.
    done.
Qed.

Lemma parseLine_reads_solver_fact_witness :
  parseLine (solverFact "fieldtype" "card_7" "owners" (DQ +:+ "cardkeys" +:+ DQ) ")")
  = [mkParseResult "card_7" "owners" (DQ +:+ "cardkeys" +:+ DQ)].
Proof.
  apply parseLine_reads_solver_fact; try done. by right.
Defined.

(** Property X3.
    The parser works line by line: the facts of two outputs joined by a
    line feed are the facts of the first followed by the facts of the
    second. *)
Theorem parseInput_line_by_line (a b : string) :
  parseInput (a +:+ NL +:+ b) = (parseInput a ++ parseInput b)%list.
Proof.
  unfold parseInput.
  change (a +:+ NL +:+ b) with (a +:+ String newline b).
  by rewrite split_app, flat_map_app.
Qed.

Lemma indexOf_le (needle a b : string) :
  0 <= JS.indexOf needle (a +:+ needle +:+ b) <= Z.of_nat (String.length a).
Proof.
  induction a as [|c a IH].
  - rewrite app_nil_l, indexOf_prefix. cbn. lia.
  - rewrite app_cons. cbn -[JS.stripPrefix Z.of_nat].
    destruct (JS.stripPrefix needle _); [lia|].
    destruct (Z.ltb_spec (JS.indexOf needle (a +:+ needle +:+ b)) 0); lia.
Qed.

Lemma indexOf_occurrence (needle s : string) (n : nat) :
  JS.indexOf needle s = Z.of_nat n ->
  exists a b, s = a +:+ needle +:+ b /\ String.length a = n.
Proof.
  revert n. induction s as [|c s IH]; intros n; cbn -[JS.stripPrefix Z.of_nat].
  - destruct (JS.stripPrefix needle EmptyString) as [r|] eqn:Hp; [|lia].
    intros H. apply stripPrefix_Some in Hp.
    exists EmptyString, r. split; [done|]. cbn. lia.
  - destruct (JS.stripPrefix needle (String c s)) as [r|] eqn:Hp.
    + intros H. apply stripPrefix_Some in Hp.
      exists EmptyString, r. split; [done|]. cbn. lia.
    + destruct (Z.ltb_spec (JS.indexOf needle s) 0) as [|Hge]; [lia|].
      intros H. destruct n as [|n]; [lia|].
      destruct (IH n) as (a & b & -> & <-); [lia|].
      by exists (String c a), b.
Qed.

Lemma indexOf_first (needle pre s : string) :
  firstAt needle pre s -> JS.indexOf needle s = Z.of_nat (String.length pre).
Proof.
  intros [[post ->] Hmin].
  pose proof (indexOf_le needle pre post) as Hle.
  destruct (indexOf_occurrence needle (pre +:+ needle +:+ post)
              (Z.to_nat (JS.indexOf needle (pre +:+ needle +:+ post))))
    as (a & b & Heq & Hlen); [lia|].
  apply Hmin in Heq. lia.
Qed.

Lemma firstAt_of_indexOf (needle pre post : string) :
  JS.indexOf needle (pre +:+ needle +:+ post) = Z.of_nat (String.length pre) ->
  firstAt needle pre (pre +:+ needle +:+ post).
Proof.
  intros H. split; [by exists post|]. intros a b Heq.
  pose proof (indexOf_le needle a b) as Hle. rewrite <- Heq in Hle. lia.
Qed.

Lemma substring_prefix (pre rest : string) :
  JS.substring (pre +:+ rest) 0 (Z.of_nat (String.length pre)) = pre.
Proof.
  unfold JS.substring, JS.clamp. rewrite length_app.
  replace (Z.min _ _) with 0 by lia.
  replace (Z.max _ _ - 0) with (Z.of_nat (String.length pre)) by lia.
  rewrite Nat2Z.id. apply substring_0_app.
Qed.

(** Property X4.
    [parseClingoResult] parses exactly the text that comes before the first
    occurrence of the marker, and returns [undefined] when the output
    starts with the marker.  The marker is looked for anywhere: an output
    [UNSATISFIABLE] has it after the two letters [UN], and is read as a
    result with no facts. *)
Theorem parseClingoResult_before_marker (data pre : string) :
  firstAt marker pre data ->
  parseClingoResult data
  = match pre with
    | EmptyString => None
    | _ => Some (parseInput pre)
    end.
Proof.
  intros Hfirst. unfold parseClingoResult. fold marker.
  rewrite (indexOf_first marker pre data Hfirst).
  destruct Hfirst as [[post ->] _]. rewrite substring_prefix.
  by destruct pre.
Qed.

Lemma parseClingoResult_before_marker_witness :
  parseClingoResult ("UNSATISFIABLE" +:+ NL) = Some [].
Proof.
  apply (parseClingoResult_before_marker ("UNSATISFIABLE" +:+ NL) "UN").
  apply (firstAt_of_indexOf marker "UN" NL). reflexivity.
Defined.

End ParserExtras.

(** ** The answers of [run] *)

Module RunExtras.
Import RunFacts.

Lemma bit0_of_interrupt (code : Z) :
  overlaps code E_INTERRUPT = true -> Z.testbit code 0 = true.
Proof.
  unfold overlaps, E_INTERRUPT. intros H%negb_true_iff%Z.eqb_neq.
  destruct (Z.testbit code 0) eqn:Hb; [done|]. exfalso. apply H.
  apply Z.bits_inj'. intros n Hn. rewrite Z.land_spec, Z.bits_0.
  destruct (Z.eq_dec n 0) as [->|Hne]; [rewrite Hb; reflexivity|].
  rewrite (Z.bits_above_log2 1 n); [apply andb_false_r|lia|cbn; lia].
Qed.

Lemma overlaps_of_bit0 (code mask : Z) :
  Z.testbit code 0 = true -> Z.testbit mask 0 = true ->
  overlaps code mask = true.
Proof.
  intros Hc Hm. unfold overlaps. apply negb_true_iff, Z.eqb_neq. intros H.
  apply (f_equal (fun z => Z.testbit z 0)) in H.
  rewrite Z.land_spec, Hc, Hm, Z.bits_0 in H. discriminate.
Qed.

(** Property X6.
    The masks of the exit status share their lowest bit: whenever the
    interrupted line is logged, the error line and the memory line are
    logged with it, so a plain interrupt is reported as all three; and the
    line for an unknown error is never logged. *)
Theorem interrupt_is_logged_as_error_and_memory (code : Z) :
  (In "Interrupted" (exitDiagnostics code) ->
   In "Error" (exitDiagnostics code)
   /\ In "Out of memory" (exitDiagnostics code))
  /\ ~ In "Unknown error" (exitDiagnostics code).
Proof.
  destruct (overlaps code E_SAT && overlaps code E_EXHAUST) eqn:Hquiet.
  - apply andb_prop in Hquiet as [Hs He].
    rewrite (exitDiagnostics_quiet code Hs He). split; intros [].
  - rewrite !(exitDiagnostics_lines code _ Hquiet). split.
    + intros [[E _]|[[_ H]|[[E _]|[E _]]]]; try discriminate E.
      apply bit0_of_interrupt in H.
      split; [left|right; right; left]; (split; [done|]);
        by apply overlaps_of_bit0.
    + intros [[H _]|[[H _]|[[H _]|[H _]]]]; discriminate.
Qed.

Lemma interrupt_is_logged_as_error_and_memory_witness :
  In "Error" (exitDiagnostics 1) /\ In "Out of memory" (exitDiagnostics 1).
Proof.
  apply (proj1 (interrupt_is_logged_as_error_and_memory 1)).
  vm_compute. auto.
Defined.

(** Property X5.
    [run] changes no file and binds the project of its path.  A key that
    names no card gives the answer 400 with the message that the card was
    not found, without a look at the solver.  For a known card the answer
    is 200, with the parsed output as payload and nothing logged, exactly
    when the solver wrote something on standard output, whatever it wrote
    on standard error and whatever its exit status; otherwise it is 400 or
    500. *)
Theorem run_answers (W : Collaborators) (projectPath cardKey : string)
    (st : State) :
  let prj := newProject W projectPath in
  let r := fst (run W projectPath cardKey st) in
  snd (run W projectPath cardKey st) = mkState (Some prj) (fs st)
  /\ (findSpecificCard W prj cardKey None = None ->
      r = (mkStatus 400 (Some ("Card '" +:+ cardKey +:+ "' not found")) None, []))
  /\ forall c,
       findSpecificCard W prj cardKey None = Some c ->
       let clingo := invokeSolver W prj c in
       (forall out,
          stdout clingo = Some out -> out <> EmptyString ->
          r = (mkStatus 200 None (parseClingoResult out), []))
       /\ (statusCode (fst r) = 200 <-> truthyText (stdout clingo) = true)
       /\ (truthyText (stdout clingo) = false ->
           statusCode (fst r) = 400 \/ statusCode (fst r) = 500).
Proof.
  intros prj r. subst r. unfold run. fold prj.
  destruct (findSpecificCard W prj cardKey None) as [c|]; cbn [fst snd].
  - split; [done|]. split; [done|]. intros c' [= <-]. cbv zeta.
    unfold classify. split; [|split].
    + intros out -> Hne. by destruct out.
    + destruct (truthyText (stdout _)); [done|].
      destruct (truthyText (stderr _) && truthyNumber (status _)); by cbn.
    + intros ->.
      destruct (truthyText (stderr _) && truthyNumber (status _)); cbn; auto.
  - split; [done|]. split; [done|]. done.
Qed.

Lemma run_answers_witness :
  let W := Sample.world "/proj" [Sample.demo1]
             (mkSpawnResult (Some ("UNSATISFIABLE" +:+ NL))
                (Some "main.lp: info: no models") (Some 20)) in
  fst (run W "/proj" "demo_1" (mkState None Sample.emptyFS))
  = (mkStatus 200 None (Some []), []).
Proof.
  intros W.
  destruct (run_answers W "/proj" "demo_1" (mkState None Sample.emptyFS))
    as (_ & _ & H).
  destruct (H Sample.demo1 eq_refl) as [Hout _].
  apply (Hout ("UNSATISFIABLE" +:+ NL) eq_refl). discriminate.
Defined.

End RunExtras.

(** ** The corpus after generation *)

Module CorpusFacts.
Import StringFacts FSFacts CardFacts GenerateFacts HandlerFacts DeleteFacts.

Section WithCollaborators.
Context (W : Collaborators).

Lemma in_cardWrites_pair (prj : Project) (cs : list card) (p content : string) :
  In (p, content) (cardWrites prj cs) <->
  exists d, In d cs /\ p = cardLogicFile prj (key d) /\ content = logicProgram d.
Proof.
  unfold cardWrites. rewrite in_map_iff. split.
  - intros (d & [= <- <-] & Hd). eauto.
  - intros (d & Hd & -> & ->). eauto.
Qed.

(** The writes of an unscoped generation, one by one. *)
Lemma in_fullWrites (prj : Project) (p content : string) :
  In (p, content) (fullWrites W prj) <->
  (p = baseFile prj /\ content = commonDefinitions)
  \/ (exists d, In d (projectCards W prj)
                /\ p = cardLogicFile prj (key d) /\ content = logicProgram d)
  \/ (p = cardTreeFile prj /\ content = rowsOf (map key (projectCards W prj)))
  \/ (p = modulesFile prj /\ content = modulesContent W prj)
  \/ (p = mainFile prj /\ content = mainLogicFile).
Proof.
  unfold fullWrites, cardTreeWrites, modulesContent. cbn [getCards].
  rewrite !in_app_iff, in_cardWrites_pair, cardTreeContent_rows. cbn [In].
  split.
  - intros [[[= <- <-]|[]]|[[H|[[= <- <-]|[]]]|[[[= <- <-]|[]]|[[= <- <-]|[]]]]];
      auto 6.
  - intros [[-> ->]|[H|[[-> ->]|[[-> ->]|[-> ->]]]]]; auto 8.
Qed.

Lemma fullWrites_paths (prj : Project) (p : string) :
  In p (map fst (fullWrites W prj)) <->
  p = baseFile prj \/ p = cardTreeFile prj \/ p = modulesFile prj
  \/ p = mainFile prj
  \/ exists d, In d (projectCards W prj) /\ p = cardLogicFile prj (key d).
Proof.
  rewrite in_map_iff. split.
  - intros ([q content] & <- & Hin). cbn.
    apply in_fullWrites in Hin
      as [[-> _]|[(d & ? & -> & _)|[[-> _]|[[-> _]|[-> _]]]]]; eauto 8.
  - intros [->|[->|[->|[->|(d & Hd & ->)]]]];
      eexists (_, _); (split; [reflexivity|]); apply in_fullWrites; eauto 10.
Qed.

(** What a file holds after the writes of an unscoped generation. *)
Lemma lookup_fullWrites_unit (prj : Project) (s : FS) (c : card) :
  List.NoDup (map key (projectCards W prj)) -> In c (projectCards W prj) ->
  files (applyWrites (fullWrites W prj) s) !! cardLogicFile prj (key c)
  = Some (logicProgram c).
Proof.
  intros Hnd Hc.
  destruct (lookup_applyWrites_in (fullWrites W prj) s (cardLogicFile prj (key c)))
    as (content & Hin & ->).
  { apply fullWrites_paths. eauto 8. }
  apply in_fullWrites in Hin
    as [[H _]|[(d & Hd & Hk & ->)|[[H _]|[[H _]|[H _]]]]].
  - by apply cardLogicFile_not_base in H.
  - apply cardLogicFile_inj in Hk.
    by rewrite (same_key_same_card _ c d Hnd Hc Hd Hk).
  - by apply cardLogicFile_not_tree in H.
  - by apply cardLogicFile_not_modules in H.
  - by apply cardLogicFile_not_main in H.
Qed.

End WithCollaborators.

End CorpusFacts.

Module CorpusExtras.
Import StringFacts FSFacts CardFacts GenerateFacts HandlerFacts DeleteFacts CorpusFacts.
Import GlobalUnits.

(** Property X7.
    After an unscoped generation over cards with distinct keys, the unit of
    every card the project knows holds exactly the facts of that card.  No
    other per-card unit is touched: a unit left behind by a card the project
    no longer knows stays in place; and every file that is not one of the
    generated units is as before. *)
Theorem full_generation_units (W : Collaborators) (projectPath : string)
    (st : State) :
  let prj := newProject W projectPath in
  let s' := fs (snd (generate W projectPath None st)) in
  List.NoDup (map key (projectCards W prj)) ->
  (forall c, In c (projectCards W prj) ->
     files s' !! cardLogicFile prj (key c) = Some (logicProgram c))
  /\ (forall k, ~ In k (map key (projectCards W prj)) ->
        files s' !! cardLogicFile prj k = files (fs st) !! cardLogicFile prj k)
  /\ (forall p, ~ In p (map fst (fullWrites W prj)) ->
        files s' !! p = files (fs st) !! p).
Proof.
  intros prj s' Hnd. subst s'.
  rewrite (generate_unscoped W projectPath None st eq_refl). fold prj.
  cbn [snd fs]. split; [|split].
  - intros c Hc. by apply lookup_fullWrites_unit.
  - intros k Hk. rewrite lookup_applyWrites_notin; [done|].
    rewrite fullWrites_paths. intros [H|[H|[H|[H|(d & Hd & H)]]]].
    + by apply cardLogicFile_not_base in H.
    + by apply cardLogicFile_not_tree in H.
    + by apply cardLogicFile_not_modules in H.
    + by apply cardLogicFile_not_main in H.
    + apply cardLogicFile_inj in H as ->. apply Hk. by apply in_map.
  - intros p Hp. by rewrite lookup_applyWrites_notin.
Qed.

Lemma full_generation_units_witness :
  let W1 := Sample.world "/proj" [Sample.demo1; Sample.demo2] Sample.noSolver in
  let W2 := Sample.world "/proj" [Sample.demo1] Sample.noSolver in
  let st1 := snd (generate W1 "/proj" None (mkState None Sample.emptyFS)) in
  let s2 := fs (snd (generate W2 "/proj" None st1)) in
  files s2 !! cardLogicFile Sample.prj "demo_1" = Some (logicProgram Sample.demo1)
  /\ files s2 !! cardLogicFile Sample.prj "demo_3" = Some (logicProgram Sample.demo3).
Proof.
  intros W1 W2 st1 s2.
  destruct (full_generation_units W2 "/proj" st1) as (Hunits & Hstale & _).
  { repeat constructor. by intros []. }
  split.
  - apply (Hunits Sample.demo1). by left.
  - transitivity (files (fs st1) !! cardLogicFile Sample.prj "demo_3");
      [|by vm_compute].
    apply (Hstale "demo_3"). by intros [|[]].
Defined.

(** Property X8.
    A generation scoped to a card the project finds, over a subtree with
    distinct keys, writes the unit of each card of the subtree with the
    facts of that card and leaves the unit of every other key as it is:
    siblings and their descendants are not rewritten. *)
Theorem scoped_generation_units (W : Collaborators) (projectPath k : string)
    (st : State) (c : card) :
  let prj := newProject W projectPath in
  let s' := fs (snd (generate W projectPath (Some k) st)) in
  truthy k = true -> findSpecificCard W prj k None = Some c ->
  List.NoDup (scopeKeys W prj (Some c)) ->
  (forall d, In d (getCards W prj (Some c)) ->
     files s' !! cardLogicFile prj (key d) = Some (logicProgram d))
  /\ (forall k', ~ In k' (scopeKeys W prj (Some c)) ->
        files s' !! cardLogicFile prj k' = files (fs st) !! cardLogicFile prj k').
Proof.
  intros prj s' Hk Hc Hnd. subst s'.
  assert (scopeOf W prj (Some k) = Some (Some c)) as Hscope
    by (cbn; by rewrite Hk, Hc).
  rewrite (generate_scoped W projectPath (Some k) st c Hscope). fold prj.
  cbn [snd fs]. split.
  - intros d Hd.
    destruct (lookup_applyWrites_in (cardTreeWrites W prj (Some c))
                (mkdirRecursive (cardsFolder prj) (fs st))
                (cardLogicFile prj (key d))) as (content & Hin & ->).
    { unfold cardTreeWrites. rewrite List.map_app, in_app_iff. left.
      apply in_map_iff. exists (cardLogicFile prj (key d), logicProgram d).
      split; [done|]. apply in_cardWrites_pair. eauto. }
    unfold cardTreeWrites in Hin. apply in_app_iff in Hin as [Hin|[Hin|[]]].
    + apply in_cardWrites_pair in Hin as (d' & Hd' & Hk' & ->).
      apply cardLogicFile_inj in Hk'.
      by rewrite (same_key_same_card _ d d' Hnd Hd Hd' Hk').
    + injection Hin as Hp _. symmetry in Hp.
      by apply cardLogicFile_not_tree in Hp.
  - intros k' Hk'. rewrite cardTreeWrites_frame; [done|..].
    + apply cardLogicFile_not_tree.
    + intros d Hd Heq%cardLogicFile_inj. apply Hk'. subst k'.
      by apply in_map.
Qed.

Lemma scoped_generation_units_witness :
  let W := Sample.world "/proj" [Sample.demo1; Sample.demo2] Sample.noSolver in
  let st := mkState None Sample.emptyFS in
  let s' := fs (snd (generate W "/proj" (Some "demo_2") st)) in
  files s' !! cardLogicFile Sample.prj "demo_3" = Some (logicProgram Sample.demo3)
  /\ files s' !! cardLogicFile Sample.prj "demo_1" = None.
Proof.
  intros W st s'.
  destruct (scoped_generation_units W "/proj" "demo_2" st Sample.demo2
              eq_refl eq_refl) as [Hin Hout].
  { repeat constructor; [by intros [|[]]|by intros []]. }
  split.
  - apply (Hin Sample.demo3). right. by left.
  - apply (Hout "demo_1"). by intros [|[|[]]].
Defined.

(** Property X13.
    Once the project is resolved, [handleCardChanged] always answers 200:
    the answer of the generation it runs is dropped, so a changed card that
    the project does not find still gives 200, and then no file is
    changed. *)
Theorem handleCardChanged_always_ok (W : Collaborators) (c : card)
    (st : State) (prj : Project) :
  resolved W (Some c) st prj ->
  fst (handleCardChanged W c st) = Returned ok200
  /\ (truthy (key c) = true ->
      findSpecificCard W (newProject W (basePath prj)) (key c) None = None ->
      fs (snd (handleCardChanged W c st)) = fs st).
Proof.
  intros Hres. rewrite (handleCardChanged_resolved W c st prj Hres).
  split; [done|]. intros Hk Hnone. cbn [snd].
  rewrite generate_not_found; [done|]. cbn. by rewrite Hk, Hnone.
Qed.

Lemma handleCardChanged_always_ok_witness :
  let W := Sample.world "/proj" [Sample.demo1] Sample.noSolver in
  let st := mkState (Some Sample.prj) Sample.emptyFS in
  fst (handleCardChanged W strayCard st) = Returned ok200
  /\ fs (snd (handleCardChanged W strayCard st)) = Sample.emptyFS.
Proof.
  intros W st.
  destruct (handleCardChanged_always_ok W strayCard st Sample.prj eq_refl)
    as [Hok Hfs].
  split; [exact Hok|exact (Hfs eq_refl eq_refl)].
Defined.

End CorpusExtras.

(** ** Incremental updates against a full generation *)

Module IncrementalFacts.
Import StringFacts FSFacts CardFacts GenerateFacts HandlerFacts DeleteFacts CorpusFacts.

Lemma foldersOf_prefix (t r done : string) :
  done +:+ t <> EmptyString ->
  In (done +:+ t) (foldersOf done (t +:+ String sep r)).
Proof.
  revert done. induction t as [|c t IH]; intros done Hne.
  - rewrite app_nil_r in *. rewrite app_nil_l. cbn [foldersOf].
    rewrite Ascii.eqb_refl. apply in_app_iff. left.
    destruct done; [done|by left].
  - rewrite app_cons. cbn [foldersOf]. apply in_app_iff. right.
    replace (done +:+ String c t) with ((done +:+ String c EmptyString) +:+ t)
      in * by (by rewrite app_assoc).
    by apply IH.
Qed.

Lemma pathExists_file (p content : string) (s : FS) :
  files s !! p = Some content -> pathExists p s = true.
Proof.
  intros H. unfold pathExists. rewrite bool_decide_eq_true_2; [done|].
  by rewrite H.
Qed.

Lemma pathExists_prepared (prj : Project) (s : FS) :
  calculationFolder prj <> EmptyString ->
  pathExists (calculationFolder prj) (prepared prj s) = true.
Proof.
  intros Hne. unfold pathExists, prepared, mkdirRecursive. cbn [dirs].
  apply orb_true_iff. right. apply bool_decide_eq_true_2.
  apply elem_of_union_r, elem_of_list_to_set, list_elem_of_In.
  unfold cardsFolder, joinPath.
  change ("/" +:+ "cards") with (String sep "cards").
  apply (foldersOf_prefix (calculationFolder prj) "cards" EmptyString).
  by rewrite app_nil_l.
Qed.

Section WithCollaborators.
Context (W : Collaborators).

Lemma lookup_fullWrites_base (prj : Project) (s : FS) :
  files (applyWrites (fullWrites W prj) s) !! baseFile prj
  = Some commonDefinitions.
Proof.
  destruct (lookup_applyWrites_in (fullWrites W prj) s (baseFile prj))
    as (content & Hin & ->); [apply fullWrites_paths; auto|].
  apply in_fullWrites in Hin
    as [[_ ->]|[(d & _ & H & _)|[[H _]|[[H _]|[H _]]]]]; [done|..].
  - symmetry in H. by apply cardLogicFile_not_base in H.
  - symmetry in H. by apply tree_not_base in H.
  - by apply base_not_modules in H.
  - by apply base_not_main in H.
Qed.

Lemma lookup_fullWrites_modules (prj : Project) (s : FS) :
  files (applyWrites (fullWrites W prj) s) !! modulesFile prj
  = Some (modulesContent W prj).
Proof.
  destruct (lookup_applyWrites_in (fullWrites W prj) s (modulesFile prj))
    as (content & Hin & ->); [apply fullWrites_paths; auto|].
  apply in_fullWrites in Hin
    as [[H _]|[(d & _ & H & _)|[[H _]|[[_ ->]|[H _]]]]]; [..|done|].
  - symmetry in H. by apply base_not_modules in H.
  - symmetry in H. by apply cardLogicFile_not_modules in H.
  - symmetry in H. by apply tree_not_modules in H.
  - by apply modules_not_main in H.
Qed.

Lemma lookup_fullWrites_main (prj : Project) (s : FS) :
  files (applyWrites (fullWrites W prj) s) !! mainFile prj = Some mainLogicFile.
Proof.
  destruct (lookup_applyWrites_in (fullWrites W prj) s (mainFile prj))
    as (content & Hin & ->); [apply fullWrites_paths; auto 6|].
  apply in_fullWrites in Hin
    as [[H _]|[(d & _ & H & _)|[[H _]|[[H _]|[_ ->]]]]]; [..|done].
  - symmetry in H. by apply base_not_main in H.
  - symmetry in H. by apply cardLogicFile_not_main in H.
  - symmetry in H. by apply tree_not_main in H.
  - symmetry in H. by apply modules_not_main in H.
Qed.

(** After an unscoped generation the corpus is there. *)
Lemma corpus_exists (prj : Project) (s : FS) :
  calculationFolder prj <> EmptyString ->
  calculationsForTreeExist prj (applyWrites (fullWrites W prj) (prepared prj s))
  = true.
Proof.
  intros Hne. unfold calculationsForTreeExist. apply andb_true_iff. split.
  - apply (pathExists_file _ (rowsOf (map key (projectCards W prj)))).
    apply fullWrites_tree.
  - pose proof (pathExists_prepared prj s Hne) as H.
    unfold pathExists in *. apply orb_true_iff in H as [H|H].
    + apply orb_true_iff. destruct
        (List.in_dec String.string_dec (calculationFolder prj)
           (map fst (fullWrites W prj))) as [Hin|Hout].
      * left. apply bool_decide_eq_true_2.
        destruct (lookup_applyWrites_in _ (prepared prj s) _ Hin) as (c & _ & ->).
        eauto.
      * left. by rewrite lookup_applyWrites_notin.
    + apply orb_true_iff. right. by rewrite dirs_applyWrites.
Qed.

End WithCollaborators.

End IncrementalFacts.

Module RefreshFacts.
Import StringFacts FSFacts CardFacts GenerateFacts HandlerFacts DeleteFacts CorpusFacts.
Import IncrementalFacts.

Section Refresh.
Context (W W' : Collaborators) (prj : Project) (cs : list card).

Hypothesis distinct : List.NoDup (map key (projectCards W' prj)).
Hypothesis sameModules : projectCalculations W' prj = projectCalculations W prj.
Hypothesis someCard : cs <> [].
Hypothesis kept :
  forall d, In d (projectCards W prj) ->
            In d (projectCards W' prj) \/ covered W' prj cs (key d).
Hypothesis known :
  forall d', In d' (projectCards W' prj) ->
             (exists d, In d (projectCards W prj) /\ key d = key d')
             \/ covered W' prj cs (key d').
Hypothesis agree :
  forall c d, In c cs -> In d (getCards W' prj (Some c)) ->
              exists d', In d' (projectCards W' prj)
                         /\ key d' = key d /\ logicProgram d' = logicProgram d.

Lemma covered_path (k : string) :
  covered W' prj cs k ->
  In (cardLogicFile prj k) (map fst (newCardsWrites W' prj cs)).
Proof.
  intros (c & d & Hc & Hd & <-). apply newCardsWrites_paths. right. eauto.
Qed.

Lemma uncovered_card_kept (d : card) :
  In d (projectCards W prj) ->
  ~ In (cardLogicFile prj (key d)) (map fst (newCardsWrites W' prj cs)) ->
  In d (projectCards W' prj).
Proof.
  intros Hd Hout. destruct (kept d Hd) as [|Hcov]; [done|].
  destruct Hout. by apply covered_path.
Qed.

(** The corpus of the old project data, refreshed for the cards [cs] with
    the new project data, is the corpus of the new project data. *)
Lemma refresh_is_regeneration (s : FS) :
  applyWrites (newCardsWrites W' prj cs) (applyWrites (fullWrites W prj) s)
  = applyWrites (fullWrites W' prj) s.
Proof.
  apply FS_eq; [|by rewrite !dirs_applyWrites].
  apply map_eq. intros p.
  destruct (List.in_dec String.string_dec p
              (map fst (newCardsWrites W' prj cs))) as [Hextra|Hextra].
  - destruct (lookup_applyWrites_in _ (applyWrites (fullWrites W prj) s) p Hextra)
      as (content & Hin & ->).
    apply in_newCardsWrites in Hin as [[-> ->]|(c & d & Hc & Hd & -> & ->)].
    + symmetry. apply fullWrites_tree.
    + destruct (agree c d Hc Hd) as (d' & Hd' & Hk & Hprog).
      rewrite <- Hk, <- Hprog. symmetry. by apply lookup_fullWrites_unit.
  - rewrite lookup_applyWrites_notin by done.
    destruct (List.in_dec String.string_dec p (map fst (fullWrites W' prj)))
      as [Hnew|Hnew].
    + apply fullWrites_paths in Hnew as [->|[->|[->|[->|(d' & Hd' & ->)]]]].
      * by rewrite !lookup_fullWrites_base.
      * destruct Hextra. apply newCardsWrites_paths. by left.
      * rewrite !lookup_fullWrites_modules. unfold modulesContent.
        by rewrite sameModules.
      * by rewrite !lookup_fullWrites_main.
      * rewrite (lookup_fullWrites_unit W' prj s d' distinct Hd').
        destruct (lookup_applyWrites_in (fullWrites W prj) s
                    (cardLogicFile prj (key d'))) as (content & Hin & ->).
        { destruct (known d' Hd') as [(d & Hd & Hk)|Hcov].
          - apply fullWrites_paths. do 4 right. exists d. by rewrite Hk.
          - destruct Hextra. by apply covered_path. }
        apply in_fullWrites in Hin
          as [[H _]|[(d2 & Hd2 & Hk & ->)|[[H _]|[[H _]|[H _]]]]].
        -- by apply cardLogicFile_not_base in H.
        -- apply cardLogicFile_inj in Hk.
           assert (In d2 (projectCards W' prj)) as Hd2'.
           { apply uncovered_card_kept; [done|]. by rewrite <- Hk. }
           by rewrite (same_key_same_card _ d' d2 distinct Hd' Hd2' Hk).
        -- by apply cardLogicFile_not_tree in H.
        -- by apply cardLogicFile_not_modules in H.
        -- by apply cardLogicFile_not_main in H.
    + rewrite (lookup_applyWrites_notin (fullWrites W' prj)) by done.
      apply lookup_applyWrites_notin. intros Hold.
      apply Hnew. apply fullWrites_paths.
      apply fullWrites_paths in Hold as [->|[->|[->|[->|(d & Hd & ->)]]]]; auto.
      do 4 right. exists d. split; [|done]. by apply uncovered_card_kept.
Qed.

End Refresh.

End RefreshFacts.

Module IncrementalTheorems.
Import StringFacts FSFacts CardFacts GenerateFacts HandlerFacts DeleteFacts CorpusFacts.
Import IncrementalFacts RefreshFacts BindingTheorems.

(** Property X10.
    Creating cards after a full generation gives what a full generation
    over the new project data gives.  The project data changes from [W] to
    [W'], with distinct keys and the same calculation modules; every card
    known before is still known unchanged or lies in the subtree of a
    created card, every card known now was known before or lies in such a
    subtree, and the subtrees are reported with the facts of the project's
    cards.  Then [handleNewCards] for the created cards, run on the state a
    full generation over [W] left, returns with the state a full generation
    over [W'] leaves. *)
Theorem creation_matches_regeneration (W W' : Collaborators)
    (projectPath : string) (cs : list card) (st : State) :
  let prj := newProject W projectPath in
  newProject W' projectPath = prj ->
  calculationFolder prj <> EmptyString ->
  cs <> [] ->
  List.NoDup (map key (projectCards W' prj)) ->
  projectCalculations W' prj = projectCalculations W prj ->
  (forall d, In d (projectCards W prj) ->
             In d (projectCards W' prj) \/ covered W' prj cs (key d)) ->
  (forall d', In d' (projectCards W' prj) ->
              (exists d, In d (projectCards W prj) /\ key d = key d')
              \/ covered W' prj cs (key d')) ->
  (forall c d, In c cs -> In d (getCards W' prj (Some c)) ->
               exists d', In d' (projectCards W' prj)
                          /\ key d' = key d /\ logicProgram d' = logicProgram d) ->
  handleNewCards W' (Some cs) (snd (generate W projectPath None st))
  = (Returned tt, snd (generate W' projectPath None st)).
Proof.
  intros prj Hprj Hcalc Hne Hnd Hmod Hkept Hknown Hagree.
  rewrite (generate_unscoped W projectPath None st eq_refl).
  rewrite (generate_unscoped W' projectPath None st eq_refl).
  rewrite Hprj. fold prj. cbn [snd].
  rewrite (handleNewCards_resolved W' cs _ prj) by (by apply resolved_bound).
  cbn [fs]. fold (prepared prj (fs st)).
  rewrite (corpus_exists W prj (fs st) Hcalc).
  by rewrite (refresh_is_regeneration W W' prj cs).
Qed.

Lemma creation_matches_regeneration_witness :
  let W := Sample.world "/proj" [Sample.demo1] Sample.noSolver in
  let W' := Sample.world "/proj" [Sample.demo1; Sample.demo2] Sample.noSolver in
  let st := mkState None Sample.emptyFS in
  handleNewCards W' (Some [Sample.demo2]) (snd (generate W "/proj" None st))
  = (Returned tt, snd (generate W' "/proj" None st)).
Proof.
  intros W W' st.
  apply (creation_matches_regeneration W W' "/proj" [Sample.demo2] st);
    try done.
  - repeat constructor; [by intros [|[|[]]]|by intros [|[]]|by intros []].
  - intros d [<-|[]]. left. by left.
  - intros d' [<-|[<-|[<-|[]]]].
    + left. exists Sample.demo1. split; [by left|done].
    + right. exists Sample.demo2, (withoutChildren Sample.demo2).
      split; [by left|]. split; [by left|done].
    + right. exists Sample.demo2, Sample.demo3.
      split; [by left|]. split; [right; by left|done].
  - intros c d [<-|[]] [<-|[<-|[]]].
    + exists Sample.demo2. split; [right; by left|done].
    + exists Sample.demo3. split; [right; right; by left|done].
Defined.

(** Property X11.
    Changing a card after a full generation gives what a full generation
    over the new project data gives.  The project data changes from [W] to
    [W'], with distinct keys and the same calculation modules; every card
    known before is still known unchanged or lies in the subtree of the
    changed card, and conversely every card known now was known before or
    lies in that subtree; the subtree is reported with the facts of the
    project's cards.  Then [handleCardChanged] for the changed card, run on
    the state a full generation over [W] left, returns 200 with the state a
    full generation over [W'] leaves. *)
Theorem change_matches_regeneration (W W' : Collaborators)
    (projectPath : string) (c c' : card) (st : State) :
  let prj := newProject W projectPath in
  newProject W' projectPath = prj ->
  newProject W' (basePath prj) = prj ->
  truthy (key c) = true ->
  findSpecificCard W' prj (key c) None = Some c' ->
  List.NoDup (map key (projectCards W' prj)) ->
  projectCalculations W' prj = projectCalculations W prj ->
  (forall d, In d (projectCards W prj) ->
             In d (projectCards W' prj) \/ covered W' prj [c'] (key d)) ->
  (forall d', In d' (projectCards W' prj) ->
              (exists d, In d (projectCards W prj) /\ key d = key d')
              \/ covered W' prj [c'] (key d')) ->
  (forall c0 d, In c0 [c'] -> In d (getCards W' prj (Some c0)) ->
                exists d', In d' (projectCards W' prj)
                           /\ key d' = key d /\ logicProgram d' = logicProgram d) ->
  handleCardChanged W' c (snd (generate W projectPath None st))
  = (Returned ok200, snd (generate W' projectPath None st)).
Proof.
  intros prj Hprj Hbase Hk Hc Hnd Hmod Hkept Hknown Hagree.
  rewrite (handleCardChanged_bound W' c _ prj) by apply generate_binds.
  f_equal.
  assert (scopeOf W' (newProject W' (basePath prj)) (Some (key c))
          = Some (Some c')) as Hscope
    by (rewrite Hbase; cbn; by rewrite Hk, Hc).
  rewrite (generate_scoped W' (basePath prj) (Some (key c)) _ c' Hscope).
  rewrite Hbase.
  rewrite (generate_unscoped W projectPath None st eq_refl).
  rewrite (generate_unscoped W' projectPath None st eq_refl).
  rewrite Hprj. fold prj. cbn [snd fs]. f_equal.
  rewrite mkdir_applyWrites, mkdir_twice.
  replace (cardTreeWrites W' prj (Some c')) with (newCardsWrites W' prj [c'])
    by (unfold newCardsWrites; cbn [flat_map]; apply List.app_nil_r).
  by apply (refresh_is_regeneration W W' prj [c']).
Qed.

Lemma change_matches_regeneration_witness :
  let W := Sample.world "/proj" [Sample.demo1; Sample.demo2] Sample.noSolver in
  let W' := Sample.world "/proj" [Sample.demo1; demo2Edited] Sample.noSolver in
  let st := mkState None Sample.emptyFS in
  handleCardChanged W' demo2Edited (snd (generate W "/proj" None st))
  = (Returned ok200, snd (generate W' "/proj" None st)).
Proof.
  intros W W' st.
  apply (change_matches_regeneration W W' "/proj" demo2Edited demo2Edited st);
    try done.
  - repeat constructor; [by intros [|[|[]]]|by intros [|[]]|by intros []].
  - intros d [<-|[<-|[<-|[]]]].
    + left. by left.
    + right. exists demo2Edited, (withoutChildren demo2Edited).
      split; [by left|]. split; [by left|done].
    + left. right. right. by left.
  - intros d' [<-|[<-|[<-|[]]]].
    + left. exists Sample.demo1. split; [by left|done].
    + left. exists Sample.demo2. split; [right; by left|done].
    + left. exists Sample.demo3. split; [right; right; by left|done].
  - intros c0 d [<-|[]] [<-|[<-|[]]].
    + exists demo2Edited. split; [right; by left|done].
    + exists Sample.demo3. split; [right; right; by left|done].
Defined.

End IncrementalTheorems.

Module DeletionFacts.
Import StringFacts FSFacts CardFacts GenerateFacts HandlerFacts DeleteFacts CorpusFacts.
Import RowFacts IncrementalFacts.

Lemma removeFirst_distinct (k : string) (ks : list string) :
  List.NoDup ks ->
  removeFirst k ks = List.filter (fun x => negb (String.eqb x k)) ks.
Proof.
  induction 1 as [|x ks Hx Hnd IH]; [done|]. cbn.
  destruct (String.eqb_spec x k) as [->|Hne]; cbn; [|by rewrite IH].
  symmetry. apply List.forallb_filter_id. apply forallb_forall.
  intros y Hy. apply negb_true_iff, String.eqb_neq. by intros ->.
Qed.

Lemma filter_twice {A} (f g h : A -> bool) (l : list A) :
  (forall x, g x && f x = h x) ->
  List.filter g (List.filter f l) = List.filter h l.
Proof.
  intros H. induction l as [|x l IH]; [done|]. cbn. rewrite <- H.
  destruct (f x); cbn; [destruct (g x)|rewrite andb_false_r]; by rewrite IH.
Qed.

Lemma withoutKeys_distinct (ks : list string) (affected : list card) :
  List.NoDup ks ->
  withoutKeys ks affected
  = List.filter (fun k => negb (isAffected affected k)) ks.
Proof.
  revert ks. induction affected as [|a affected IH]; intros ks Hnd.
  - cbn. symmetry. apply List.forallb_filter_id. by apply forallb_forall.
  - unfold withoutKeys in *. cbn [foldl].
    rewrite removeFirst_distinct by done.
    rewrite IH by (by apply List.NoDup_filter).
    apply filter_twice. intros x. unfold isAffected. cbn [map existsb].
    by rewrite negb_orb, andb_comm.
Qed.

End DeletionFacts.

Module DeletionTheorems.
Import StringFacts FSFacts CardFacts GenerateFacts HandlerFacts DeleteFacts CorpusFacts.
Import RowFacts IncrementalFacts DeletionFacts.

(** Property X12.
    Deleting a card after a full generation gives what a full generation
    over the remaining cards gives.  The project has distinct keys made of
    word characters; [handleDeleteCard] is run for a card while the project
    still knows it, on the state a full generation left; afterwards the
    project knows the cards that are not in the subtree of the deleted
    card, with the same calculation modules.  If no unit of the deleted
    subtree was there before the generation, the handler returns with the
    state a full generation over the remaining cards leaves: the rows and
    units of the deleted subtree are gone and nothing else differs. *)
Theorem deletion_matches_regeneration (W W' : Collaborators)
    (projectPath : string) (c : card) (st : State) :
  let prj := newProject W projectPath in
  let affected := getCards W prj (Some c) in
  newProject W' projectPath = prj ->
  calculationFolder prj <> EmptyString ->
  List.NoDup (map key (projectCards W prj)) ->
  Forall wordKey (map key (projectCards W prj)) ->
  Forall (fun d => wordKey (key d)) affected ->
  projectCards W' prj = remaining affected (projectCards W prj) ->
  projectCalculations W' prj = projectCalculations W prj ->
  (forall d, In d affected -> files (fs st) !! cardLogicFile prj (key d) = None) ->
  handleDeleteCard W (Some c) (snd (generate W projectPath None st))
  = (Returned tt, snd (generate W' projectPath None st)).
Proof.
  intros prj affected Hprj Hcalc Hnd Hword Hwa Hcards Hmod Habs.
  rewrite (generate_unscoped W projectPath None st eq_refl).
  rewrite (generate_unscoped W' projectPath None st eq_refl).
  rewrite Hprj. fold prj. cbn [snd]. fold (prepared prj (fs st)).
  rewrite (handleDeleteCard_resolved W c _ prj) by (by apply resolved_bound).
  cbv zeta. cbn [fs]. fold affected.
  rewrite (corpus_exists W prj (fs st) Hcalc). unfold readFile.
  rewrite (fullWrites_tree W prj (prepared prj (fs st))).
  rewrite (withoutRows_rows _ affected Hword Hwa).
  rewrite (withoutKeys_distinct _ affected Hnd), <- remaining_keys, <- Hcards.
  f_equal. f_equal.
  apply FS_eq; [|cbn [dirs writeFile]; by rewrite !dirs_applyWrites].
  assert (List.NoDup (map key (projectCards W' prj))) as Hnd'.
  { rewrite Hcards, remaining_keys. by apply List.NoDup_filter. }
  apply map_eq. intros p. cbn [files writeFile].
  destruct (String.string_dec p (cardTreeFile prj)) as [->|Htree].
  { rewrite lookup_insert_eq. symmetry. apply fullWrites_tree. }
  rewrite lookup_insert_ne by by apply not_eq_sym.
  destruct (List.in_dec String.string_dec p
              (map (fun d => cardLogicFile prj (key d)) affected)) as [Haff|Haff].
  - apply in_map_iff in Haff as (a & <- & Ha).
    rewrite (unitsRemoved_gone prj _ affected a Ha).
    rewrite lookup_applyWrites_notin; [symmetry; by apply Habs|].
    rewrite fullWrites_paths. intros [H|[H|[H|[H|(d & Hd & H)]]]].
    + by apply cardLogicFile_not_base in H.
    + by apply cardLogicFile_not_tree in H.
    + by apply cardLogicFile_not_modules in H.
    + by apply cardLogicFile_not_main in H.
    + apply cardLogicFile_inj in H. rewrite Hcards in Hd.
      apply in_remaining in Hd as [_ Hout]. apply Hout. rewrite <- H.
      by apply in_map.
  - assert (forall a, In a affected -> p <> cardLogicFile prj (key a)) as Hunits.
    { intros a Ha ->. apply Haff.
      by apply (in_map (fun d => cardLogicFile prj (key d))). }
    rewrite (unitsRemoved_frame prj _ affected p Hunits).
    destruct (List.in_dec String.string_dec p (map fst (fullWrites W prj)))
      as [Hold|Hold].
    + apply fullWrites_paths in Hold as [->|[->|[->|[->|(d & Hd & ->)]]]].
      * by rewrite !lookup_fullWrites_base.
      * done.
      * rewrite !lookup_fullWrites_modules. unfold modulesContent.
        by rewrite Hmod.
      * by rewrite !lookup_fullWrites_main.
      * assert (In d (projectCards W' prj)) as Hd'.
        { rewrite Hcards. apply in_remaining. split; [done|].
          intros (a & Hk & Ha)%in_map_iff. apply (Hunits a Ha).
          by rewrite Hk. }
        by rewrite !lookup_fullWrites_unit.
    + rewrite (lookup_applyWrites_notin (fullWrites W prj)) by done.
      symmetry. apply lookup_applyWrites_notin. intros Hnew. apply Hold.
      apply fullWrites_paths.
      apply fullWrites_paths in Hnew as [->|[->|[->|[->|(d & Hd & ->)]]]]; auto.
      do 4 right. exists d. split; [|done]. rewrite Hcards in Hd.
      by apply in_remaining in Hd as [Hd _].
Qed.

Lemma deletion_matches_regeneration_witness :
  let W := Sample.world "/proj" [Sample.demo1; Sample.demo2] Sample.noSolver in
  let W' := Sample.world "/proj" [Sample.demo1] Sample.noSolver in
  let st := mkState None Sample.emptyFS in
  handleDeleteCard W (Some Sample.demo2) (snd (generate W "/proj" None st))
  = (Returned tt, snd (generate W' "/proj" None st)).
Proof.
  intros W W' st.
  apply (deletion_matches_regeneration W W' "/proj" Sample.demo2 st);
    try done.
  - repeat constructor; [by intros [|[|[]]]|by intros [|[]]|by intros []].
  - repeat constructor.
  - repeat constructor.
Defined.

End DeletionTheorems.

(** ** Edge cases of generation and of the handlers *)

Module EdgeExtras.
Import StringFacts FSFacts CardFacts GenerateFacts HandlerFacts DeleteFacts CorpusFacts.
Import IncrementalFacts EncoderFacts ParserExtras.

Lemma foldersOf_self (done todo : string) :
  In (done +:+ todo) (foldersOf done todo).
Proof.
  revert done. induction todo as [|c todo IH]; intros done.
  - rewrite app_nil_r. by left.
  - cbn [foldersOf]. apply in_app_iff. right.
    replace (done +:+ String c todo)
      with ((done +:+ String c EmptyString) +:+ todo)
      by (by rewrite app_assoc).
    apply IH.
Qed.

Lemma pathExists_dir (p : string) (s : FS) : p ∈ dirs s -> pathExists p s = true.
Proof.
  intros H. unfold pathExists. apply orb_true_iff. right.
  by apply bool_decide_eq_true_2.
Qed.

Lemma pathExists_applyWrites (ws : list (string * string)) (p : string) (s : FS) :
  pathExists p s = true -> pathExists p (applyWrites ws s) = true.
Proof.
  unfold pathExists. rewrite dirs_applyWrites. intros [H|H]%orb_true_iff.
  - apply orb_true_iff. left. apply bool_decide_eq_true_2.
    apply bool_decide_eq_true in H.
    destruct (List.in_dec String.string_dec p (map fst ws)) as [Hin|Hout].
    + destruct (lookup_applyWrites_in ws s p Hin) as (c & _ & ->). eauto.
    + by rewrite lookup_applyWrites_notin.
  - apply orb_true_iff. by right.
Qed.

(** Property X9.
    A generation that answers 200, for a project whose calculation folder
    has a name, leaves the corpus in place: the calculation folder, its
    [cards] folder and cardtree.lp exist, so that the creation handler, run
    next, no longer takes its early exit.  A generation that answers 400
    changes no file and makes no folder. *)
Theorem generation_establishes_corpus (W : Collaborators)
    (projectPath : string) (cardKey : option string) (st : State) :
  let prj := newProject W projectPath in
  let r := generate W projectPath cardKey st in
  (statusCode (fst r) = 200 \/ statusCode (fst r) = 400)
  /\ (statusCode (fst r) = 400 -> fs (snd r) = fs st)
  /\ (statusCode (fst r) = 200 -> calculationFolder prj <> EmptyString ->
      calculationsForTreeExist prj (fs (snd r)) = true
      /\ pathExists (cardsFolder prj) (fs (snd r)) = true).
Proof.
  intros prj r. subst r.
  assert (forall ws,
            files (applyWrites ws (prepared prj (fs st))) !! cardTreeFile prj
            = Some (rowsOf (map key (projectCards W prj))) ->
            calculationFolder prj <> EmptyString ->
            calculationsForTreeExist prj (applyWrites ws (prepared prj (fs st)))
            = true
            /\ pathExists (cardsFolder prj)
                 (applyWrites ws (prepared prj (fs st))) = true) as Hcorpus.
  { intros ws Htree Hne. split.
    - unfold calculationsForTreeExist. apply andb_true_iff. split.
      + by apply (pathExists_file _ _ _ Htree).
      + by apply pathExists_applyWrites, pathExists_prepared.
    - apply pathExists_applyWrites, pathExists_dir.
      apply elem_of_union_r, elem_of_list_to_set, list_elem_of_In.
      apply (foldersOf_self EmptyString). }
  destruct (scopeOf W prj cardKey) as [[c|]|] eqn:Hscope.
  - rewrite (generate_scoped W projectPath cardKey st c Hscope). fold prj.
    cbn [fst snd fs statusCode ok200]. split; [by left|]. split; [done|].
    intros _. apply Hcorpus, cardTreeWrites_tree.
  - rewrite (generate_unscoped W projectPath cardKey st Hscope). fold prj.
    cbn [fst snd fs statusCode ok200]. split; [by left|]. split; [done|].
    intros _. apply Hcorpus, fullWrites_tree.
  - unfold generate. fold prj. rewrite Hscope.
    cbn [fst snd fs statusCode notFound]. split; [by right|]. by split.
Qed.

Lemma generation_establishes_corpus_witness :
  let W := Sample.world "/proj" [Sample.demo1; Sample.demo2] Sample.noSolver in
  let st := mkState None Sample.emptyFS in
  fs (snd (generate W "/proj" (Some "nobody") st)) = Sample.emptyFS
  /\ calculationsForTreeExist Sample.prj
       (fs (snd (generate W "/proj" (Some "demo_2") st))) = true.
Proof.
  intros W st. split.
  - by apply (generation_establishes_corpus W "/proj" (Some "nobody") st).
  - by apply (generation_establishes_corpus W "/proj" (Some "demo_2") st).
Defined.

(** Property X14.
    [handleNewCards] on the empty array, which is not taken as a missing
    argument: with a project bound it returns and changes nothing; with no
    project bound it throws a type error, for the first card is read off an
    empty array. *)
Theorem handleNewCards_empty_array (W : Collaborators) (st : State) :
  (project st = None -> handleNewCards W (Some []) st = (Thrown TypeError, st))
  /\ (forall prj, project st = Some prj ->
        handleNewCards W (Some []) st = (Returned tt, st)).
Proof.
  split.
  - intros H. unfold handleNewCards, setCalculateProject. cbn [head].
    by rewrite H.
  - intros prj H.
    rewrite (handleNewCards_resolved W [] st prj) by (by apply resolved_bound).
    destruct st as [p s]. cbn in *. subst p.
    by destruct (calculationsForTreeExist prj s).
Qed.

Lemma handleNewCards_empty_array_witness :
  let W := Sample.world "/proj" [Sample.demo1] Sample.noSolver in
  handleNewCards W (Some []) (mkState None Sample.emptyFS)
  = (Thrown TypeError, mkState None Sample.emptyFS).
Proof.
  intros W.
  by apply (proj1 (handleNewCards_empty_array W (mkState None Sample.emptyFS))).
Defined.

(** Property X15.
    Deleting a card that the project does not find changes nothing: no
    unit is removed, and cardtree.lp, when it is there, is written back
    with the text it had. *)
Theorem handleDeleteCard_unknown_card (W : Collaborators) (c : card)
    (st : State) (prj : Project) :
  resolved W (Some c) st prj ->
  findSpecificCard W prj (key c) (Some detailsForSubtree) = None ->
  (calculationsForTreeExist prj (fs st) = true ->
   is_Some (files (fs st) !! cardTreeFile prj)) ->
  handleDeleteCard W (Some c) st = (Returned tt, mkState (Some prj) (fs st)).
Proof.
  intros Hres Hnone Hfile.
  rewrite (handleDeleteCard_resolved W c st prj Hres). cbv zeta.
  unfold getCards. rewrite Hnone. unfold readFile.
  destruct (calculationsForTreeExist prj (fs st)).
  - destruct (Hfile eq_refl) as [content Hc]. rewrite Hc.
    f_equal. f_equal. apply FS_eq; [|done]. cbn.
    by apply insert_id.
  - f_equal. f_equal. by destruct (fs st).
Qed.

Lemma handleDeleteCard_unknown_card_witness :
  let W := Sample.world "/proj" [Sample.demo1; Sample.demo2] Sample.noSolver in
  let st := snd (generate W "/proj" None (mkState None Sample.emptyFS)) in
  handleDeleteCard W (Some strayCard) st = (Returned tt, st).
Proof.
  intros W st.
  by apply (handleDeleteCard_unknown_card W strayCard st Sample.prj).
Defined.

End EdgeExtras.

(** ** The parent fact of a stored card *)

Module PathExtras.
Import StringFacts EncoderFacts ParserExtras.





End PathExtras.

(** ** Every parsed fact is in the input *)

Module ParserSoundness.
Import Regex StringFacts RegexFacts ParserFacts.

(** Property X2.
    The parser invents nothing: each fact it returns is spelled out in one
    of the lines of the input, as [field] or [fieldtype], an opening
    parenthesis, the card key, a comma, the field name between double
    quotes, a comma and the value; and none of the three is empty. *)
Theorem parsed_fact_occurs_in_input (input : string) (r : ParseResult) :
  In r (parseInput input) ->
  exists line pre g post,
    In line (JS.split newline input)
    /\ (g = "field" \/ g = "fieldtype")
    /\ line = pre +:+ solverFact g (cardKey r) (field r) (value r) post
    /\ cardKey r <> EmptyString /\ field r <> EmptyString
    /\ value r <> EmptyString.
Proof.
  unfold parseInput. intros (line & Hline & Hr)%in_flat_map.
  unfold parseLine in Hr. destruct line as [|c l]; [done|].
  destruct (exec fieldRegex (String c l)) as [m|] eqn:Hm; [|done].
  destruct Hr as [<-|[]]. cbn [cardKey field value].
  apply exec_sound in Hm as (pre & t & post & Heq & M).
  apply fieldRegex_shape in M
    as (g & k & f & v & Hg & Hk & _ & Hf & _ & Hv & _ & -> & _ & -> & -> & ->).
  exists (String c l), pre, g, post. repeat split; try done.
  rewrite Heq. unfold solverFact. by rewrite !app_assoc.
Qed.

Lemma parsed_fact_occurs_in_input_witness :
  exists line pre g post,
    In line (JS.split newline priorityOutput)
    /\ (g = "field" \/ g = "fieldtype")
    /\ line = pre +:+ solverFact g "card1" "priority" (DQ +:+ "3" +:+ DQ) post
    /\ "card1" <> EmptyString /\ "priority" <> EmptyString
    /\ DQ +:+ "3" +:+ DQ <> EmptyString.
Proof.
  apply (parsed_fact_occurs_in_input priorityOutput
           (mkParseResult "card1" "priority" (DQ +:+ "3" +:+ DQ))).
  vm_compute. by left.
Defined.

End ParserSoundness.
